(** * process_watcher.py: a shallow embedding and its properties

    The script watches operating-system processes, given by PID or by a
    regular expression on the command line, and calls every loaded
    communication module when a watched process ends.

    The embedding follows the script statement by statement.  The module
    level variables ([processes], [to_delete], [comms]) and the two output
    channels live in one [state] record; Python exceptions, [sys.exit]
    included (it raises [SystemExit]), are the [Raise] result of a state and
    exception monad [M] in which the state survives a raise, as Python's
    globals do.

    The operating system is a [world]: the process table at every instant.
    [time.sleep] and every query of the process table advance the instant, so
    a process may vanish between two consecutive statements.  Asynchronous
    signals ([KeyboardInterrupt]), the length of the interval and the parsing
    of [sys.argv] are outside the model; [re.compile] is assumed to accept
    every pattern. *)

From Stdlib Require Import ZArith List String Bool Arith Lia.
From Stdlib Require Import Permutation.
Import ListNotations.

Local Open Scope string_scope.
Local Open Scope list_scope.
Local Open Scope nat_scope.

(** ** The operating system *)

(** One row of the process table. *)
Record os_process := mkOsProcess {
  os_pid : Z;
  os_command : string;
  os_name : string;
  os_start_time : Z
}.

Definition process_table := list os_process.

(** The process table at every instant. *)
Definition world := nat -> process_table.

Definition lookup_pid (pid : Z) (t : process_table) : option os_process :=
  find (fun r => Z.eqb (os_pid r) pid) t.

(** ** process.py (not part of the sources at hand) *)

(** The object [ProcessByPID(pid)] holds: the metadata captured when the
    process was first seen. *)
Record ProcessByPID := mkProcessByPID {
  pid : Z;
  command : string;
  name : string;
  start_time : Z
}.

(** Modelled from the spec: the constructor of process.py's [ProcessByPID]
    captures a snapshot (identity, command line, name, start time) of the
    process that holds the identity. *)
Definition capture (p : Z) (r : os_process) : ProcessByPID :=
  mkProcessByPID p (os_command r) (os_name r) (os_start_time r).

(** Modelled from the spec: [ProcessByPID.check] of process.py answers alive
    when a process holds the identity and its start time is the captured
    one, and terminated otherwise (no process, or a recycled identity). *)
Definition running_in (t : process_table) (p : ProcessByPID) : bool :=
  match lookup_pid (pid p) t with
  | Some r => Z.eqb (os_start_time r) (start_time p)
  | None => false
  end.

(** ** Communication modules *)

(** A module of the [communicate] package, seen through its [send]: the
    keyword arguments, the process and the instant decide whether the
    delivery returns ([true]) or raises ([false]). *)
Record comm_module := mkModule {
  mod_name : string;
  mod_send : list string -> ProcessByPID -> nat -> bool
}.

(** An entry of [comms]: (library, send function keyword args). *)
Definition comm := (comm_module * list string)%type.

(** What an [import] statement of the script does. *)
Inductive import_result :=
| Imported (m : comm_module)
| ImportError (missing : string)
| ImportFailed.

Record environment := mkEnv {
  import_email : import_result;
  import_dbus_notify : import_result
}.

(** ** Command line arguments ([args]) *)

Record arguments := mkArgs {
  arg_pid : list Z;
  arg_command : list string;
  arg_watch_new : bool;
  arg_to : list string;        (* [None] and the empty list are both falsy *)
  arg_notify : bool;
  arg_quiet : bool
}.

(** ** Output *)

(** The lines the script prints to stdout. *)
Inductive printed :=
| PrNoProcessWithPID (p : Z)        (* 'No process with PID {}' *)
| PrNoProcessesFound                (* 'No processes found to watch.' *)
| PrWatching (n : nat)              (* 'Watching {} processes:' *)
| PrProcessStopped                  (* 'Process stopped:' *)
| PrInfo (p : ProcessByPID).        (* process.info() *)

(** The records of the [logging] module. *)
Inductive logged :=
| LogException (msg : string)
| LogError (msg : string).

(** One call of a module's [send]. *)
Record invocation := mkInvocation {
  inv_module : string;
  inv_kwargs : list string;
  inv_process : ProcessByPID
}.

(** ** The dict [processes] *)

(** A Python dict keeps its keys in insertion order, which is the order the
    poll loop scans and notifies in. *)
Definition dict := list (Z * ProcessByPID).

Definition keys (d : dict) : list Z := map fst d.

(** [pid in processes] *)
Definition contains (d : dict) (k : Z) : bool :=
  existsb (fun kv => Z.eqb (fst kv) k) d.

(** [processes[pid] = v]: replaces in place, or appends. *)
Fixpoint setitem (d : dict) (k : Z) (v : ProcessByPID) : dict :=
  match d with
  | [] => [(k, v)]
  | (k', v') :: r =>
      if Z.eqb k' k then (k, v) :: r else (k', v') :: setitem r k v
  end.

(** [del processes[pid]]: [None] stands for [KeyError]. *)
Fixpoint delitem (d : dict) (k : Z) : option dict :=
  match d with
  | [] => None
  | (k', v') :: r =>
      if Z.eqb k' k then Some r
      else option_map (cons (k', v')) (delitem r k)
  end.

(** ** Program state and the monad *)

Record state := mkState {
  clock : nat;                  (* the current instant of the world *)
  sleeps : nat;                 (* calls of [time.sleep]: poll ticks begun *)
  processes : dict;
  to_delete : list Z;
  comms : list comm;
  stdout : list printed;
  stderr : list logged;
  sent : list invocation        (* every call of a [send], in order *)
}.

Definition initial_state : state := mkState 0 0 [] [] [] [] [] [].

Definition with_clock (f : nat -> nat) (s : state) : state :=
  mkState (f (clock s)) (sleeps s) (processes s) (to_delete s) (comms s)
          (stdout s) (stderr s) (sent s).
Definition with_sleeps (f : nat -> nat) (s : state) : state :=
  mkState (clock s) (f (sleeps s)) (processes s) (to_delete s) (comms s)
          (stdout s) (stderr s) (sent s).
Definition with_processes (f : dict -> dict) (s : state) : state :=
  mkState (clock s) (sleeps s) (f (processes s)) (to_delete s) (comms s)
          (stdout s) (stderr s) (sent s).
Definition with_to_delete (f : list Z -> list Z) (s : state) : state :=
  mkState (clock s) (sleeps s) (processes s) (f (to_delete s)) (comms s)
          (stdout s) (stderr s) (sent s).
Definition with_comms (f : list comm -> list comm) (s : state) : state :=
  mkState (clock s) (sleeps s) (processes s) (to_delete s) (f (comms s))
          (stdout s) (stderr s) (sent s).
Definition with_stdout (f : list printed -> list printed) (s : state) : state :=
  mkState (clock s) (sleeps s) (processes s) (to_delete s) (comms s)
          (f (stdout s)) (stderr s) (sent s).
Definition with_stderr (f : list logged -> list logged) (s : state) : state :=
  mkState (clock s) (sleeps s) (processes s) (to_delete s) (comms s)
          (stdout s) (f (stderr s)) (sent s).
Definition with_sent (f : list invocation -> list invocation) (s : state) : state :=
  mkState (clock s) (sleeps s) (processes s) (to_delete s) (comms s)
          (stdout s) (stderr s) (f (sent s)).

Inductive exn :=
| NoProcessFound (p : Z)
| SendError (module_name : string)
| KeyError (p : Z)
| SystemExit (code : Z).

Inductive result (A : Type) :=
| Return (a : A)
| Raise (e : exn).
Arguments Return {A} a.
Arguments Raise {A} e.

Definition M (A : Type) := state -> result A * state.

Definition ret {A} (a : A) : M A := fun s => (Return a, s).

Definition bind {A B} (m : M A) (k : A -> M B) : M B :=
  fun s =>
    match m s with
    | (Return a, s') => k a s'
    | (Raise e, s') => (Raise e, s')
    end.

Definition raise {A} (e : exn) : M A := fun s => (Raise e, s).

(** [try: m  except ...: h e]; the handler answers [None] for the exceptions
    its [except] clause does not name. *)
Definition try_except {A} (m : M A) (h : exn -> option (M A)) : M A :=
  fun s =>
    match m s with
    | (Return a, s') => (Return a, s')
    | (Raise e, s') =>
        match h e with
        | Some k => k s'
        | None => (Raise e, s')
        end
    end.

(** Read a module-level variable. *)
Definition gets {A} (f : state -> A) : M A := fun s => (Return (f s), s).
Definition modify (f : state -> state) : M unit := fun s => (Return tt, f s).

Declare Scope monad_scope.
Delimit Scope monad_scope with monad.
Notation "x <- m ;; k" := (bind m (fun x => k))
  (at level 61, m at next level, right associativity) : monad_scope.
Notation "m ;; k" := (bind m (fun _ => k))
  (at level 61, right associativity) : monad_scope.
Local Open Scope monad_scope.

(** [for x in l: body x] *)
Fixpoint for_each {A} (l : list A) (body : A -> M unit) : M unit :=
  match l with
  | [] => ret tt
  | x :: r => body x ;; for_each r body
  end.

(** [sys.exit(code)]; [sys.exit()] is [sys_exit 0]. *)
Definition sys_exit {A} (code : Z) : M A := raise (SystemExit code).

(** [print(...)], which --quiet shadows by a function that does nothing. *)
Definition print (quiet : bool) (l : printed) : M unit :=
  if quiet then ret tt else modify (with_stdout (fun o => o ++ [l])).

Definition log (l : logged) : M unit :=
  modify (with_stderr (fun o => o ++ [l])).

(** The status the interpreter exits with: the code of [SystemExit], 1 for
    any other uncaught exception, and nothing while the loop still runs. *)
Definition exit_status {A} (r : result A) : option Z :=
  match r with
  | Return _ => None
  | Raise (SystemExit c) => Some c
  | Raise _ => Some 1%Z
  end.

(** ** The script *)

Section Script.

(** The process table over time, the [search] of compiled patterns and
    what the imports of the communication modules do. *)
Variable w : world.
Variable re_search : string -> string -> bool.
Variable env : environment.

(** Modelled from the spec: [ProcessByPID(pid)] of process.py looks the
    process up and captures its snapshot, and raises [NoProcessFound] when
    no process holds the identity at call time. *)
Definition ProcessByPID_init (p : Z) : M ProcessByPID :=
  fun s =>
    match lookup_pid p (w (clock s)) with
    | Some r => (Return (capture p r), with_clock S s)
    | None => (Raise (NoProcessFound p), with_clock S s)
    end.

(** [process.check()], asked at the current instant. *)
Definition check (p : ProcessByPID) : M bool :=
  fun s => (Return (running_in (w (clock s)) p), with_clock S s).

(** Modelled from the spec: [pids_with_command_name(new_processes,
    *command_regexs)] of process.py enumerates the processes that run now
    and yields the identities whose command line matches any pattern;
    [ProcessIDs()] is the source of that enumeration, taken afresh at every
    call. *)
Definition matching (regexs : list string) (t : process_table) : list Z :=
  map os_pid
      (filter (fun r => existsb (fun re => re_search re (os_command r)) regexs) t).

Definition pids_with_command_name (regexs : list string) : M (list Z) :=
  fun s => (Return (matching regexs (w (clock s))), with_clock S s).

(** [time.sleep(args.interval)] *)
Definition sleep : M unit :=
  modify (fun s => with_sleeps S (with_clock S s)).

(** [comm.send(process=process, **send_args)] *)
Definition send (p : ProcessByPID) (c : comm) : M unit :=
  fun s =>
    let s' := with_sent (fun l => l ++ [mkInvocation (mod_name (fst c)) (snd c) p]) s in
    if mod_send (fst c) (snd c) p (clock s)
    then (Return tt, s')
    else (Raise (SendError (mod_name (fst c))), s').

(** Lines 54-78: load the communication protocols the arguments ask for. *)
Definition load_email (a : arguments) : M unit :=
  match arg_to a with
  | [] => ret tt
  | _ :: _ =>
      match import_email env with
      | Imported m => modify (with_comms (fun l => l ++ [(m, arg_to a)]))
      | _ =>
          log (LogException "Failed to load email module. (required by --to)") ;;
          sys_exit 1%Z
      end
  end.

Definition exception_message : string :=
  "Failed to load Desktop Notification module. (required by --notify)".

Definition load_dbus_notify (a : arguments) : M unit :=
  if arg_notify a then
    match import_dbus_notify env with
    | Imported m => modify (with_comms (fun l => l ++ [(m, [])]))
    | ImportError missing =>
        (if String.eqb missing "notify2"
         then log (LogError exception_message)
         else log (LogException exception_message)) ;;
        sys_exit 1%Z
    | ImportFailed =>
        log (LogException exception_message) ;;
        sys_exit 1%Z
    end
  else ret tt.

Definition load_comms (a : arguments) : M unit :=
  load_email a ;; load_dbus_notify a.

(** [if pid not in processes: processes[pid] = ProcessByPID(pid)]
    (lines 88-89, 99-100 and 137-138); answers the new object, if any. *)
Definition watch_pid (p : Z) : M (option ProcessByPID) :=
  present <- gets (fun s => contains (processes s) p) ;;
  if present then ret None
  else
    h <- ProcessByPID_init p ;;
    modify (with_processes (fun d => setitem d p h)) ;;
    ret (Some h).

(** Lines 86-93: the PIDs of the command line. *)
Definition init_pids (a : arguments) : M unit :=
  try_except
    (for_each (arg_pid a) (fun p => watch_pid p ;; ret tt))
    (fun e =>
       match e with
       | NoProcessFound p =>
           Some (print (arg_quiet a) (PrNoProcessWithPID p) ;; sys_exit 1%Z)
       | _ => None
       end).

(** Lines 95-100: the processes the patterns match at startup. *)
Definition init_commands (a : arguments) : M unit :=
  match arg_command a with
  | [] => ret tt
  | _ :: _ =>
      pids <- pids_with_command_name (arg_command a) ;;
      for_each pids (fun p => watch_pid p ;; ret tt)
  end.

(** Line 103: whether the program checks for new processes. *)
Definition watch_new (a : arguments) : bool :=
  arg_watch_new a && (0 <? List.length (arg_command a)).

(** Lines 105-111. *)
Definition report_watching (a : arguments) : M unit :=
  d <- gets processes ;;
  (match d with
   | [] =>
       if watch_new a then ret tt
       else print (arg_quiet a) PrNoProcessesFound ;; sys_exit 0%Z
   | _ :: _ => ret tt
   end) ;;
  print (arg_quiet a) (PrWatching (List.length d)) ;;
  for_each d (fun kv => print (arg_quiet a) (PrInfo (snd kv))).

(** Everything before the loop. *)
Definition resolve (a : arguments) : M unit :=
  load_comms a ;; init_pids a ;; init_commands a.

Definition startup (a : arguments) : M unit :=
  resolve a ;; report_watching a.

(** Lines 126-127: the dispatch to every loaded module. *)
Definition notify (p : ProcessByPID) : M unit :=
  cs <- gets comms ;;
  for_each cs (send p).

(** Lines 119-127: the body of the scan. *)
Definition scan_item (a : arguments) (kv : Z * ProcessByPID) : M unit :=
  running <- check (snd kv) ;;
  if running then ret tt
  else
    modify (with_to_delete (fun l => l ++ [fst kv])) ;;
    print (arg_quiet a) PrProcessStopped ;;
    print (arg_quiet a) (PrInfo (snd kv)) ;;
    notify (snd kv).

(** Lines 118-127. *)
Definition scan (a : arguments) : M unit :=
  d <- gets processes ;;
  for_each d (scan_item a).

(** [del processes[pid]] *)
Definition del_process (p : Z) : M unit :=
  fun s =>
    match delitem (processes s) p with
    | Some d => (Return tt, with_processes (fun _ => d) s)
    | None => (Raise (KeyError p), s)
    end.

(** Lines 129-133. *)
Definition removals : M unit :=
  l <- gets to_delete ;;
  match l with
  | [] => ret tt
  | _ :: _ =>
      for_each l del_process ;;
      modify (with_to_delete (fun _ => []))
  end.

(** Lines 136-139: watch the new processes the patterns match. *)
Definition discover (a : arguments) : M unit :=
  pids <- pids_with_command_name (arg_command a) ;;
  for_each pids
    (fun p =>
       h <- watch_pid p ;;
       match h with
       | Some h => print (arg_quiet a) (PrInfo h)
       | None => ret tt
       end).

(** Lines 135-142. *)
Definition discover_or_exit (a : arguments) : M unit :=
  if watch_new a then discover a
  else
    d <- gets processes ;;
    match d with
    | [] => sys_exit 0%Z
    | _ :: _ => ret tt
    end.

(** Lines 116-133: sleep, scan, remove. *)
Definition poll (a : arguments) : M unit :=
  sleep ;; scan a ;; removals.

(** One pass of [while True] (lines 116-142). *)
Definition tick (a : arguments) : M unit :=
  poll a ;; discover_or_exit a.

(** The loop, cut after [n] passes: [Return] means it is still running. *)
Fixpoint loop (a : arguments) (n : nat) : M unit :=
  match n with
  | O => ret tt
  | S n' => tick a ;; loop a n'
  end.

(** The whole script, the loop cut after [n] passes. *)
Definition main (a : arguments) (n : nat) : M unit :=
  startup a ;; loop a n.

Definition run (a : arguments) (n : nat) : result unit * state :=
  main a n initial_state.

End Script.

(** ** What the properties speak of *)

(** The watch set is well formed: no identity twice, and every object sits
    under the identity it was created for. *)
Definition wf_dict (d : dict) : Prop :=
  NoDup (keys d) /\ forall k h, In (k, h) d -> pid h = k.

(** The record of one call: [comm.send(process=p, **send_args)]. *)
Definition invocation_of (p : ProcessByPID) (c : comm) : invocation :=
  mkInvocation (mod_name (fst c)) (snd c) p.

(** Whether the [send] of [c] returns for [p] at instant [t]. *)
Definition delivers_at (p : ProcessByPID) (t : nat) (c : comm) : bool :=
  mod_send (fst c) (snd c) p t.

(** No module of [cs] ever raises. *)
Definition reliable (cs : list comm) : Prop :=
  forall c, In c cs -> forall p t, delivers_at p t c = true.

(** The modules the dispatch reaches: all of them up to the first whose
    [send] raises, that one included. *)
Fixpoint attempted (cs : list comm) (p : ProcessByPID) (t : nat) : list comm :=
  match cs with
  | [] => []
  | c :: r => if delivers_at p t c then c :: attempted r p t else [c]
  end.

(** The first module whose [send] raises, if any. *)
Definition first_failure (cs : list comm) (p : ProcessByPID) (t : nat) : option comm :=
  find (fun c => negb (delivers_at p t c)) cs.

(** The entries whose [check], asked one after the other from instant [t]
    on, reports that the process has ended. *)
Fixpoint stopped (w : world) (t : nat) (d : dict) : dict :=
  match d with
  | [] => []
  | kv :: r =>
      if running_in (w t) (snd kv) then stopped w (S t) r
      else kv :: stopped w (S t) r
  end.

(** The entries whose [check] reports that the process runs. *)
Fixpoint still_running (w : world) (t : nat) (d : dict) : dict :=
  match d with
  | [] => []
  | kv :: r =>
      if running_in (w t) (snd kv) then kv :: still_running w (S t) r
      else still_running w (S t) r
  end.

(** One call per module for each entry, entry after entry. *)
Definition notifications (cs : list comm) (d : dict) : list invocation :=
  flat_map (fun kv => map (invocation_of (snd kv)) cs) d.

(** The dict without the keys of [l]. *)
Definition remove_keys (l : list Z) (d : dict) : dict :=
  filter (fun kv => negb (existsb (Z.eqb (fst kv)) l)) d.

(** The calls of a log that are about the identity [k]. *)
Definition about (k : Z) (l : list invocation) : list invocation :=
  filter (fun i => Z.eqb (pid (inv_process i)) k) l.

(** A requested communication module does not load. *)
Definition comms_fail (env : environment) (a : arguments) : Prop :=
  (arg_to a <> [] /\ forall m, import_email env <> Imported m) \/
  (arg_notify a = true /\ forall m, import_dbus_notify env <> Imported m).

(** A PID of the command line holds no process while the PIDs are resolved
    (one instant per PID). *)
Definition explicit_pid_missing (w : world) (a : arguments) : Prop :=
  exists p, In p (arg_pid a) /\
            forall t, t < List.length (arg_pid a) -> lookup_pid p (w t) = None.

(** In state [s], about to enumerate: the patterns match [p] now, [p] is not
    watched, and [p] holds no process at the instants that follow, while the
    matches are walked through. *)
Definition vanished (w : world) (re_search : string -> string -> bool)
           (regexs : list string) (p : Z) (s : state) : Prop :=
  let found := matching re_search regexs (w (clock s)) in
  In p found /\
  ~ In p (keys (processes s)) /\
  forall t, clock s < t <= clock s + List.length found -> lookup_pid p (w t) = None.

(** The command line with -q given or taken away. *)
Definition set_quiet (q : bool) (a : arguments) : arguments :=
  mkArgs (arg_pid a) (arg_command a) (arg_watch_new a) (arg_to a)
         (arg_notify a) q.

(** Two states that differ in what was printed at most. *)
Definition same_but_stdout (s1 s2 : state) : Prop :=
  clock s1 = clock s2 /\ sleeps s1 = sleeps s2 /\
  processes s1 = processes s2 /\ to_delete s1 = to_delete s2 /\
  comms s1 = comms s2 /\ stderr s1 = stderr s2 /\ sent s1 = sent s2.

(** ** Invariants, simulations and exceptions of programs in [M] *)

(** [m] keeps the state inside [I], whether it returns or raises. *)
Definition preserves {A} (I : state -> Prop) (m : M A) : Prop :=
  forall s, I s -> I (snd (m s)).

(** A predicate of the watch set alone. *)
Definition on_processes (P : dict -> Prop) (s : state) : Prop := P (processes s).

(** Nothing was sent and no pass has begun. *)
Definition silent (s : state) : Prop := sent s = [] /\ sleeps s = 0.

(** [to_delete] is empty. *)
Definition nothing_queued (s : state) : Prop := to_delete s = [].

(** The identity [k] is not watched and the log holds the calls [l] about
    it. *)
Definition forgotten (k : Z) (l : list invocation) (s : state) : Prop :=
  wf_dict (processes s) /\ ~ In k (keys (processes s)) /\ about k (sent s) = l.

(** What follows a guarded assignment in a loop over identities (nothing at
    startup, a [print] in the discovery) returns and leaves the clock and
    the watch set alone. *)
Definition harmless (k : option ProcessByPID -> M unit) : Prop :=
  forall h s, exists s',
      k h s = (Return tt, s') /\ clock s' = clock s /\ processes s' = processes s.

(** Two programs that, from such states, end alike in such states. *)
Definition sim {A} (m1 m2 : M A) : Prop :=
  forall s1 s2, same_but_stdout s1 s2 ->
    fst (m1 s1) = fst (m2 s2) /\ same_but_stdout (snd (m1 s1)) (snd (m2 s2)).

(** Every exception that [m] can raise is in [E]. *)
Definition raises_only {A} (E : exn -> Prop) (m : M A) : Prop :=
  forall s e s', m s = (Raise e, s') -> E e.

(** Anything but [SystemExit]. *)
Definition not_an_exit (e : exn) : Prop := forall c, e <> SystemExit c.

(** Anything but [sys.exit()] with status 0. *)
Definition not_a_success (e : exn) : Prop := e <> SystemExit 0.

(** ** Concrete modules, patterns, worlds and command lines *)

(** A literal pattern, searched anywhere in the command line. *)
Definition substring_search (pat s : string) : bool :=
  match index 0 pat s with
  | Some _ => true
  | None => false
  end.

(** A module whose [send] always returns. *)
Definition delivers (module_name : string) : comm_module :=
  mkModule module_name (fun _ _ _ => true).

(** A module whose [send] always raises. *)
Definition fails (module_name : string) : comm_module :=
  mkModule module_name (fun _ _ _ => false).

(** Both modules load and deliver. *)
Definition healthy_env : environment :=
  mkEnv (Imported (delivers "email")) (Imported (delivers "dbus_notify")).

(** The email module loads but its [send] always raises; the desktop
    notification module is healthy. *)
Definition broken_email_env : environment :=
  mkEnv (Imported (fails "email")) (Imported (delivers "dbus_notify")).

(** Nothing runs. *)
Definition empty_world : world := fun _ => [].

(** [sleep 60] runs as PID 100 at the first instant and has ended after. *)
Definition short_lived : world :=
  fun t => if t =? 0 then [mkOsProcess 100 "sleep 60" "sleep" 5] else [].

(** A worker runs as PID 7 at the first instant only. *)
Definition vanishing_at_startup : world :=
  fun t => if t =? 0 then [mkOsProcess 7 "worker-1" "worker" 40] else [].

(** A worker runs as PID 7 at instant 2 only, the instant of the first
    enumeration of the loop when nothing is watched. *)
Definition vanishing_at_discovery : world :=
  fun t => if t =? 2 then [mkOsProcess 7 "worker-1" "worker" 40] else [].

(** PID 7 is a worker started at 40 that has ended by instant 2; from
    instant 5 on the PID belongs to another worker, started at 50, that has
    ended by instant 9.  Nothing runs in between and after. *)
Definition recycled : world :=
  fun t => if t <? 2 then [mkOsProcess 7 "worker-1" "worker" 40]
           else if t <? 5 then []
           else if t <? 9 then [mkOsProcess 7 "worker-2" "worker" 50]
           else [].

(** [-p 100] *)
Definition watch_100 : arguments := mkArgs [100%Z] [] false [] false false.

(** No PID, no pattern. *)
Definition watch_nothing : arguments := mkArgs [] [] false [] false false.

(** [-p 100 --to a@b -n] *)
Definition notify_both : arguments :=
  mkArgs [100%Z] [] false ["a@b"] true false.

(** [-c worker] and [-c worker -w] *)
Definition watch_workers : arguments := mkArgs [] ["worker"] false [] false false.
Definition discover_workers : arguments := mkArgs [] ["worker"] true [] false false.

(** [-c worker -w -n] *)
Definition discover_and_notify : arguments :=
  mkArgs [] ["worker"] true [] true false.

(** ** Further vocabulary: the whole run *)

(** The list with each element kept once, at its first place. *)
Fixpoint first_occurrences (l : list Z) : list Z :=
  match l with
  | [] => []
  | x :: r => x :: filter (fun y => negb (Z.eqb y x)) (first_occurrences r)
  end.

(** The command line with other PIDs. *)
Definition set_pid (l : list Z) (a : arguments) : arguments :=
  mkArgs l (arg_command a) (arg_watch_new a) (arg_to a) (arg_notify a)
         (arg_quiet a).

(** The entries of [comms] the command line asks for, as far as the modules
    load: the email module with the addresses of --to, then the desktop
    notification module without keyword arguments. *)
Definition requested_comms (env : environment) (a : arguments) : list comm :=
  match arg_to a, import_email env with
  | _ :: _, Imported m => [(m, arg_to a)]
  | _, _ => []
  end ++
  match arg_notify a, import_dbus_notify env with
  | true, Imported m => [(m, [])]
  | _, _ => []
  end.

(** What the scan prints for ended entries. *)
Definition stopped_report (d : dict) : list printed :=
  flat_map (fun kv => [PrProcessStopped; PrInfo (snd kv)]) d.


(** Every call of the log was made to a module of [cs]. *)
Definition calls_within (cs : list comm) (s : state) : Prop :=
  incl (comms s) cs /\
  forall i, In i (sent s) -> exists c, In c cs /\ i = invocation_of (inv_process i) c.

(** ** Facts about the dict *)

Lemma contains_true (d : dict) (k : Z) :
  contains d k = true <-> In k (keys d).
Proof.
  unfold contains, keys. rewrite existsb_exists, in_map_iff. split.
  - intros [kv [Hin Heq]]. apply Z.eqb_eq in Heq. now exists kv.
  - intros [kv [Heq Hin]]. exists kv. split; [assumption|]. now apply Z.eqb_eq.
Qed.

Lemma contains_false (d : dict) (k : Z) :
  contains d k = false <-> ~ In k (keys d).
Proof.
  rewrite <- contains_true. destruct (contains d k); split; congruence.
Qed.

Lemma setitem_fresh (d : dict) (k : Z) (v : ProcessByPID) :
  contains d k = false -> setitem d k v = d ++ [(k, v)].
Proof.
  induction d as [|[k' v'] r IH]; simpl; [reflexivity|].
  destruct (Z.eqb k' k); simpl; [discriminate|].
  intros H. now rewrite IH.
Qed.

Lemma keys_app (d1 d2 : dict) : keys (d1 ++ d2) = keys d1 ++ keys d2.
Proof. apply map_app. Qed.

Lemma NoDup_snoc {A} (l : list A) (x : A) :
  NoDup l -> ~ In x l -> NoDup (l ++ [x]).
Proof.
  induction l as [|y l IH]; simpl; intros Hnd Hx.
  - constructor; [intros []|constructor].
  - inversion Hnd; subst. constructor.
    + rewrite in_app_iff. simpl. intuition congruence.
    + apply IH; intuition.
Qed.

Lemma wf_dict_nil : wf_dict [].
Proof. split; [constructor|intros k h []]. Qed.

Lemma wf_setitem_fresh (d : dict) (k : Z) (v : ProcessByPID) :
  wf_dict d -> contains d k = false -> pid v = k -> wf_dict (setitem d k v).
Proof.
  intros [Hnd Hk] Hc Hv. rewrite setitem_fresh by assumption. split.
  - rewrite keys_app. simpl. apply NoDup_snoc; [assumption|].
    now apply contains_false.
  - intros k' h Hin. apply in_app_or in Hin. destruct Hin as [Hin|[Heq|[]]].
    + now apply Hk.
    + now inversion Heq; subst.
Qed.

Lemma delitem_incl (d d' : dict) (k : Z) :
  delitem d k = Some d' -> incl d' d.
Proof.
  revert d'. induction d as [|[k' v'] r IH]; simpl; intros d' H; [discriminate|].
  destruct (Z.eqb k' k).
  - inversion H; subst. apply incl_tl, incl_refl.
  - destruct (delitem r k) as [r'|]; simpl in H; [|discriminate].
    inversion H; subst. apply incl_cons; [now left|].
    apply incl_tl. now apply IH.
Qed.

(** On a dict, [del] takes away the entry of the key and nothing else. *)
Lemma delitem_filter (d d' : dict) (k : Z) :
  NoDup (keys d) -> delitem d k = Some d' ->
  d' = filter (fun kv => negb (Z.eqb (fst kv) k)) d.
Proof.
  revert d'. induction d as [|[k' v'] r IH]; simpl; intros d' Hnd H; [discriminate|].
  inversion Hnd as [|? ? Hnotin Hnd']; subst.
  destruct (Z.eqb k' k) eqn:E; simpl.
  - inversion H; subst. apply Z.eqb_eq in E. subst k'.
    symmetry. apply forallb_filter_id. apply forallb_forall.
    intros [k'' v''] Hin. simpl. apply negb_true_iff, Z.eqb_neq.
    intros ->. apply Hnotin. unfold keys. apply in_map_iff.
    now exists (k, v'').
  - destruct (delitem r k) as [r'|]; simpl in H; [|discriminate].
    inversion H; subst. f_equal. now apply IH.
Qed.

Lemma delitem_present (d : dict) (k : Z) :
  In k (keys d) -> exists d', delitem d k = Some d'.
Proof.
  induction d as [|[k' v'] r IH]; simpl; intros H; [contradiction|].
  destruct (Z.eqb k' k) eqn:E; [eauto|].
  destruct H as [H|H]; [apply Z.eqb_neq in E; contradiction|].
  destruct (IH H) as [r' ->]. simpl. eauto.
Qed.

Lemma keys_filter_NoDup (f : Z * ProcessByPID -> bool) (d : dict) :
  NoDup (keys d) -> NoDup (keys (filter f d)).
Proof.
  induction d as [|kv r IH]; simpl; intros H; [constructor|].
  inversion H as [|? ? Hnotin Hnd]; subst.
  destruct (f kv); simpl; [constructor|]; auto.
  intros Hin. apply Hnotin. unfold keys in *.
  apply in_map_iff in Hin. destruct Hin as [x [Hx Hin]].
  apply filter_In in Hin. apply in_map_iff. exists x. tauto.
Qed.

Lemma wf_delitem (d d' : dict) (k : Z) :
  wf_dict d -> delitem d k = Some d' -> wf_dict d'.
Proof.
  intros [Hnd Hk] H. split.
  - rewrite (delitem_filter _ _ _ Hnd H). now apply keys_filter_NoDup.
  - intros k' h Hin. apply Hk. eapply delitem_incl; eauto.
Qed.

(** ** Reasoning about [M] *)

Lemma preserves_ret {A} (I : state -> Prop) (a : A) : preserves I (ret a).
Proof. intros s H. exact H. Qed.

Lemma preserves_raise {A} (I : state -> Prop) (e : exn) :
  preserves I (@raise A e).
Proof. intros s H. exact H. Qed.

Lemma preserves_gets {A} (I : state -> Prop) (f : state -> A) :
  preserves I (gets f).
Proof. intros s H. exact H. Qed.

Lemma preserves_modify (I : state -> Prop) (f : state -> state) :
  (forall s, I s -> I (f s)) -> preserves I (modify f).
Proof. intros Hf s H. now apply Hf. Qed.

Lemma preserves_bind {A B} (I : state -> Prop) (m : M A) (k : A -> M B) :
  preserves I m -> (forall a, preserves I (k a)) -> preserves I (bind m k).
Proof.
  intros Hm Hk s H. unfold bind. specialize (Hm s H).
  destruct (m s) as [[a|e] s']; simpl in *; [now apply Hk|assumption].
Qed.

Lemma preserves_for_each {A} (I : state -> Prop) (l : list A) (body : A -> M unit) :
  (forall x, In x l -> preserves I (body x)) -> preserves I (for_each l body).
Proof.
  induction l as [|x r IH]; simpl; intros Hb.
  - apply preserves_ret.
  - apply preserves_bind; [apply Hb; now left|].
    intros _. apply IH. intros y Hy. apply Hb. now right.
Qed.

Lemma preserves_try_except {A} (I : state -> Prop) (m : M A) (h : exn -> option (M A)) :
  preserves I m -> (forall e k, h e = Some k -> preserves I k) ->
  preserves I (try_except m h).
Proof.
  intros Hm Hh s H. unfold try_except. specialize (Hm s H).
  destruct (m s) as [[a|e] s']; simpl in *; [assumption|].
  destruct (h e) as [k|] eqn:E; simpl; [|assumption].
  now apply (Hh e k).
Qed.

Lemma preserves_sys_exit {A} (I : state -> Prop) (c : Z) :
  preserves I (@sys_exit A c).
Proof. apply preserves_raise. Qed.

(** An invariant that does not read stdout survives [print]. *)
Lemma preserves_print (I : state -> Prop) (q : bool) (l : printed) :
  (forall f s, I s -> I (with_stdout f s)) -> preserves I (print q l).
Proof.
  intros Hf. unfold print. destruct q; [apply preserves_ret|].
  apply preserves_modify. intros s. apply Hf.
Qed.

Lemma preserves_log (I : state -> Prop) (l : logged) :
  (forall f s, I s -> I (with_stderr f s)) -> preserves I (log l).
Proof. intros Hf. apply preserves_modify. intros s. apply Hf. Qed.

Lemma bind_assoc {A B C} (m : M A) (f : A -> M B) (g : B -> M C) (s : state) :
  bind (bind m f) g s = bind m (fun x => bind (f x) g) s.
Proof.
  unfold bind. destruct (m s) as [[a|e] s']; reflexivity.
Qed.

(** [for_each] over a concatenation. *)
Lemma for_each_app {A} (l1 l2 : list A) (body : A -> M unit) (s : state) :
  for_each (l1 ++ l2) body s = (for_each l1 body ;; for_each l2 body) s.
Proof.
  revert s. induction l1 as [|x r IH]; intros s; simpl; [reflexivity|].
  rewrite bind_assoc. unfold bind.
  destruct (body x s) as [[[]|e] s']; [|reflexivity].
  exact (IH s').
Qed.

(** An exception of the body leaves the loop at once. *)
Lemma for_each_raises {A} (l1 l2 : list A) (x : A) (body : A -> M unit)
      (s s1 s2 : state) (e : exn) :
  for_each l1 body s = (Return tt, s1) ->
  body x s1 = (Raise e, s2) ->
  for_each (l1 ++ x :: l2) body s = (Raise e, s2).
Proof.
  intros H1 H2. rewrite for_each_app. unfold bind. rewrite H1. simpl.
  unfold bind. now rewrite H2.
Qed.

Section ScriptFacts.

Variable w : world.
Variable re_search : string -> string -> bool.
Variable env : environment.

(** What [if pid not in processes: processes[pid] = ProcessByPID(pid)]
    does, in one equation. *)
Lemma watch_pid_eq (p : Z) (s : state) :
  watch_pid w p s =
  if contains (processes s) p then (Return None, s)
  else match lookup_pid p (w (clock s)) with
       | Some r =>
           (Return (Some (capture p r)),
            with_processes (fun d => setitem d p (capture p r)) (with_clock S s))
       | None => (Raise (NoProcessFound p), with_clock S s)
       end.
Proof.
  unfold watch_pid, bind, gets. simpl.
  destruct (contains (processes s) p); [reflexivity|].
  unfold ProcessByPID_init. destruct (lookup_pid p (w (clock s))); reflexivity.
Qed.

Lemma watch_pid_wf (p : Z) :
  preserves (on_processes wf_dict) (watch_pid w p).
Proof.
  intros s H. rewrite watch_pid_eq. unfold on_processes in *.
  destruct (contains (processes s) p) eqn:E; [assumption|].
  destruct (lookup_pid p (w (clock s))); simpl; [|assumption].
  now apply wf_setitem_fresh.
Qed.

Lemma del_process_wf (p : Z) :
  preserves (on_processes wf_dict) (del_process p).
Proof.
  intros s H. unfold del_process, on_processes in *.
  destruct (delitem (processes s) p) eqn:E; simpl; [|assumption].
  eapply wf_delitem; eauto.
Qed.

End ScriptFacts.

(** The primitives of the script keep every invariant that does not read
    the fields they write. *)
Section Primitives.

Variable w : world.
Variable re_search : string -> string -> bool.
Variable I : state -> Prop.

Lemma preserves_check (p : ProcessByPID) :
  (forall f s, I s -> I (with_clock f s)) -> preserves I (check w p).
Proof. intros Hf s H. now apply Hf. Qed.

Lemma preserves_pids_with_command_name (regexs : list string) :
  (forall f s, I s -> I (with_clock f s)) ->
  preserves I (pids_with_command_name w re_search regexs).
Proof. intros Hf s H. now apply Hf. Qed.

Lemma preserves_ProcessByPID_init (p : Z) :
  (forall f s, I s -> I (with_clock f s)) -> preserves I (ProcessByPID_init w p).
Proof.
  intros Hf s H. unfold ProcessByPID_init.
  destruct (lookup_pid p (w (clock s))); now apply Hf.
Qed.

Lemma preserves_sleep :
  (forall f s, I s -> I (with_clock f s)) ->
  (forall f s, I s -> I (with_sleeps f s)) -> preserves I sleep.
Proof. intros Hc Hs s H. now apply Hs, Hc. Qed.

Lemma preserves_send (p : ProcessByPID) (c : comm) :
  (forall f s, I s -> I (with_sent f s)) -> preserves I (send p c).
Proof.
  intros Hf s H. unfold send.
  destruct (mod_send (fst c) (snd c) p (clock s)); now apply Hf.
Qed.

End Primitives.

(** Decompose a [preserves] goal along the structure of the program. *)
Ltac pres_step :=
  match goal with
  | |- preserves _ (ret _) => apply preserves_ret
  | |- preserves _ (raise _) => apply preserves_raise
  | |- preserves _ (sys_exit _) => apply preserves_sys_exit
  | |- preserves _ (gets _) => apply preserves_gets
  | |- preserves _ (bind _ _) => apply preserves_bind; [|intro]
  | |- preserves _ (for_each _ _) => apply preserves_for_each; intros ? _
  | |- preserves _ (print _ _) => apply preserves_print
  | |- preserves _ (log _) => apply preserves_log
  | |- preserves _ (check _ _) => apply preserves_check
  | |- preserves _ (pids_with_command_name _ _ _) =>
      apply preserves_pids_with_command_name
  | |- preserves _ (ProcessByPID_init _ _) => apply preserves_ProcessByPID_init
  | |- preserves _ sleep => apply preserves_sleep
  | |- preserves _ (send _ _) => apply preserves_send
  | |- preserves _ (modify _) => apply preserves_modify
  | |- preserves _ (match ?x with _ => _ end) => destruct x
  end.

Ltac pres := repeat pres_step.

Section WatchSetInvariant.

Variable w : world.
Variable re_search : string -> string -> bool.
Variable env : environment.

(** A property of the watch set that adding and deleting keep. *)
Variable P : dict -> Prop.
Hypothesis P_watch : forall p, preserves (on_processes P) (watch_pid w p).
Hypothesis P_del : forall p, preserves (on_processes P) (del_process p).

Let J := on_processes P.

Ltac frame := pres; try (unfold J, on_processes; simpl; intros; assumption).

Lemma load_comms_on_processes (a : arguments) : preserves J (load_comms env a).
Proof. unfold load_comms, load_email, load_dbus_notify. frame. Qed.

Lemma init_pids_on_processes (a : arguments) : preserves J (init_pids w a).
Proof.
  unfold init_pids. apply preserves_try_except.
  - frame. apply P_watch.
  - intros e k Hk. destruct e; inversion Hk; subst. frame.
Qed.

Lemma init_commands_on_processes (a : arguments) :
  preserves J (init_commands w re_search a).
Proof. unfold init_commands. frame. apply P_watch. Qed.

Lemma report_watching_on_processes (a : arguments) :
  preserves J (report_watching a).
Proof. unfold report_watching. frame. Qed.

Lemma startup_on_processes (a : arguments) :
  preserves J (startup w re_search env a).
Proof.
  unfold startup, resolve. pres.
  - apply load_comms_on_processes.
  - apply init_pids_on_processes.
  - apply init_commands_on_processes.
  - apply report_watching_on_processes.
Qed.

Lemma scan_on_processes (a : arguments) : preserves J (scan w a).
Proof. unfold scan, scan_item, notify. frame. Qed.

Lemma removals_on_processes : preserves J removals.
Proof. unfold removals. frame. apply P_del. Qed.

Lemma discover_on_processes (a : arguments) :
  preserves J (discover w re_search a).
Proof. unfold discover. frame. apply P_watch. Qed.

Lemma tick_on_processes (a : arguments) : preserves J (tick w re_search a).
Proof.
  unfold tick, poll, discover_or_exit. frame.
  - apply scan_on_processes.
  - apply removals_on_processes.
  - apply discover_on_processes.
Qed.

Lemma loop_on_processes (a : arguments) (n : nat) :
  preserves J (loop w re_search a n).
Proof.
  induction n as [|n IH]; simpl; pres; [apply tick_on_processes|exact IH].
Qed.

Lemma main_on_processes (a : arguments) (n : nat) :
  preserves J (main w re_search env a n).
Proof.
  unfold main. pres; [apply startup_on_processes|apply loop_on_processes].
Qed.

End WatchSetInvariant.

(** ** Startup sends nothing and never sleeps *)

Section Startup.

Variable w : world.
Variable re_search : string -> string -> bool.
Variable env : environment.

Ltac frame := pres; try (unfold silent; simpl; intros; assumption).

Lemma watch_pid_silent (p : Z) : preserves silent (watch_pid w p).
Proof. unfold watch_pid. frame. Qed.

Lemma load_comms_silent (a : arguments) : preserves silent (load_comms env a).
Proof. unfold load_comms, load_email, load_dbus_notify. frame. Qed.

Lemma init_pids_silent (a : arguments) : preserves silent (init_pids w a).
Proof.
  unfold init_pids. apply preserves_try_except.
  - frame. apply watch_pid_silent.
  - intros e k Hk. destruct e; inversion Hk; subst. frame.
Qed.

Lemma init_commands_silent (a : arguments) :
  preserves silent (init_commands w re_search a).
Proof. unfold init_commands. frame. apply watch_pid_silent. Qed.

Lemma resolve_silent (a : arguments) :
  preserves silent (resolve w re_search env a).
Proof.
  unfold resolve. pres;
    [apply load_comms_silent|apply init_pids_silent|apply init_commands_silent].
Qed.

Lemma report_watching_silent (a : arguments) :
  preserves silent (report_watching a).
Proof. unfold report_watching. frame. Qed.

Lemma startup_silent (a : arguments) :
  preserves silent (startup w re_search env a).
Proof.
  unfold startup. pres; [apply resolve_silent|apply report_watching_silent].
Qed.

(** When startup raises, the loop is never entered. *)
Lemma main_startup_raises (a : arguments) (n : nat) (s s' : state) (e : exn) :
  startup w re_search env a s = (Raise e, s') ->
  main w re_search env a n s = (Raise e, s').
Proof. intros H. unfold main, bind. now rewrite H. Qed.

Lemma startup_resolve_raises (a : arguments) (s s' : state) (e : exn) :
  resolve w re_search env a s = (Raise e, s') ->
  startup w re_search env a s = (Raise e, s').
Proof. intros H. unfold startup, bind. now rewrite H. Qed.

(** An identity of the list that is not watched and holds no process while
    the list is walked makes the walk raise [NoProcessFound]. *)
Lemma for_each_watch_vanished (k : option ProcessByPID -> M unit)
      (l : list Z) (p : Z) (s : state) :
  harmless k ->
  In p l ->
  ~ In p (keys (processes s)) ->
  (forall t, clock s <= t < clock s + List.length l -> lookup_pid p (w t) = None) ->
  exists q s',
    for_each l (fun p => h <- watch_pid w p ;; k h) s = (Raise (NoProcessFound q), s').
Proof.
  intros Hk. revert s.
  induction l as [|x r IH]; intros s Hin Hnot Hgone; [contradiction|].
  simpl. unfold bind at 1. unfold bind at 1. rewrite watch_pid_eq.
  destruct (contains (processes s) x) eqn:Ec.
  - assert (x <> p) by (intros ->; now apply contains_true in Ec).
    destruct Hin as [Hin|Hin]; [contradiction|].
    destruct (Hk None s) as [s' [-> [Hc Hp]]].
    apply IH; auto.
    + now rewrite Hp.
    + rewrite Hc. intros t Ht. apply Hgone. simpl. lia.
  - destruct (lookup_pid x (w (clock s))) eqn:El.
    + assert (x <> p).
      { intros ->. rewrite Hgone in El; [discriminate|]. simpl. lia. }
      destruct Hin as [Hin|Hin]; [contradiction|].
      destruct (Hk (Some (capture x o))
                   (with_processes (fun d => setitem d x (capture x o))
                                   (with_clock S s)))
        as [s' [-> [Hc Hp]]].
      apply IH; auto.
      * rewrite Hp. simpl. rewrite setitem_fresh by assumption.
        rewrite keys_app, in_app_iff. simpl. intuition.
      * rewrite Hc. simpl. intros t Ht. apply Hgone. simpl. lia.
    + eauto.
Qed.

Lemma harmless_ret : harmless (fun _ => ret tt).
Proof. intros h s. exists s. auto. Qed.

End Startup.

(** ** Startup failures *)

Section StartupFailures.

Variable w : world.
Variable re_search : string -> string -> bool.
Variable env : environment.

Lemma load_comms_cases (a : arguments) (s : state) :
  (exists s', load_comms env a s = (Raise (SystemExit 1), s')) \/
  (exists s', load_comms env a s = (Return tt, s')
              /\ clock s' = clock s /\ processes s' = processes s).
Proof.
  unfold load_comms, load_email, load_dbus_notify, bind, log, modify, sys_exit,
    raise, ret.
  destruct (arg_to a); [|destruct (import_email env)];
    destruct (arg_notify a); try destruct (import_dbus_notify env);
    try destruct (String.eqb _ _); simpl; eauto.
Qed.

Lemma load_comms_fails (a : arguments) (s : state) :
  comms_fail env a -> exists s', load_comms env a s = (Raise (SystemExit 1), s').
Proof.
  unfold comms_fail, load_comms, load_email, load_dbus_notify, bind, log, modify,
    sys_exit, raise, ret.
  intros [[Hto Him]|[Hn Him]].
  - destruct (arg_to a); [congruence|].
    destruct (import_email env) eqn:E; simpl; eauto.
    exfalso. eapply Him. reflexivity.
  - rewrite Hn.
    destruct (arg_to a); [|destruct (import_email env)]; simpl; eauto;
      destruct (import_dbus_notify env) eqn:E; try destruct (String.eqb _ _);
      simpl; eauto; exfalso; eapply Him; reflexivity.
Qed.

Lemma init_pids_missing (a : arguments) (s : state) :
  clock s = 0 -> processes s = [] -> explicit_pid_missing w a ->
  exists s', init_pids w a s = (Raise (SystemExit 1), s').
Proof.
  intros Hc Hp [p [Hin Hgone]].
  destruct (for_each_watch_vanished w (fun _ => ret tt) (arg_pid a) p s
                                    harmless_ret Hin) as [q [s' Hq]].
  - rewrite Hp. intros [].
  - intros t Ht. apply Hgone. lia.
  - unfold init_pids, try_except. rewrite Hq.
    unfold bind, print, sys_exit, raise, modify, ret.
    destruct (arg_quiet a); simpl; eauto.
Qed.

Lemma startup_fails (a : arguments) :
  comms_fail env a \/ explicit_pid_missing w a ->
  exists s', startup w re_search env a initial_state = (Raise (SystemExit 1), s').
Proof.
  intros H.
  destruct (load_comms_cases a initial_state) as [[s' Hl]|[s' [Hl [Hc Hp]]]].
  - exists s'. apply startup_resolve_raises. unfold resolve, bind. now rewrite Hl.
  - destruct H as [H|H].
    + destruct (load_comms_fails a initial_state H) as [s'' Hl']. congruence.
    + destruct (init_pids_missing a s' Hc Hp H) as [s'' Hi].
      exists s''. apply startup_resolve_raises. unfold resolve, bind.
      rewrite Hl. now rewrite Hi.
Qed.

End StartupFailures.

(** ** The claims about startup *)

(** C5: every startup failure, a requested communication module that does
    not load or a PID of the command line that holds no process, ends the
    run with exit status 1 before the poll loop begins: nothing has slept
    and nothing has been sent, whatever the number of passes allowed. *)
Theorem startup_failure_aborts
        (w : world) (re_search : string -> string -> bool)
        (env : environment) (a : arguments) (n : nat) :
  comms_fail env a \/ explicit_pid_missing w a ->
  exit_status (fst (run w re_search env a n)) = Some 1%Z /\
  sleeps (snd (run w re_search env a n)) = 0 /\
  sent (snd (run w re_search env a n)) = [].
Proof.
  intros H. destruct (startup_fails w re_search env a H) as [s' Hs].
  unfold run. rewrite (main_startup_raises _ _ _ _ n _ _ _ Hs). simpl.
  assert (Hsil : silent (snd (startup w re_search env a initial_state))).
  { apply startup_silent. split; reflexivity. }
  rewrite Hs in Hsil. destruct Hsil. auto.
Qed.

Lemma startup_failure_aborts_witness :
  explicit_pid_missing empty_world watch_100 /\
  exit_status (fst (run empty_world substring_search healthy_env watch_100 5))
  = Some 1%Z /\
  sleeps (snd (run empty_world substring_search healthy_env watch_100 5)) = 0 /\
  sent (snd (run empty_world substring_search healthy_env watch_100 5)) = [].
Proof.
  assert (H : explicit_pid_missing empty_world watch_100).
  { exists 100%Z. split; [simpl; auto|reflexivity]. }
  split; [exact H|].
  apply (startup_failure_aborts empty_world substring_search healthy_env
           watch_100 5).
  right. exact H.
Defined.

(** The check of lines 105-107, on the flag the script computes. *)
Lemma empty_watch_set_exits
      (w : world) (re_search : string -> string -> bool)
      (env : environment) (a : arguments) (n : nat) (s1 : state) :
  resolve w re_search env a initial_state = (Return tt, s1) ->
  processes s1 = [] ->
  watch_new a = false ->
  fst (run w re_search env a n) = Raise (SystemExit 0) /\
  sleeps (snd (run w re_search env a n)) = 0 /\
  sent (snd (run w re_search env a n)) = [].
Proof.
  intros Hr Hp Hw.
  assert (Hsil : silent (snd (resolve w re_search env a initial_state))).
  { apply resolve_silent. split; reflexivity. }
  rewrite Hr in Hsil. destruct Hsil as [Hsent Hsleeps]. simpl in *.
  assert (Hs : exists s', startup w re_search env a initial_state
                          = (Raise (SystemExit 0), s')
                          /\ sleeps s' = 0 /\ sent s' = []).
  { unfold startup. unfold bind at 1. rewrite Hr.
    unfold report_watching, bind, gets. rewrite Hp, Hw. simpl.
    unfold print, modify, ret, sys_exit, raise.
    destruct (arg_quiet a); simpl; eauto. }
  destruct Hs as [s' [Hs [Hsl Hse]]].
  unfold run. rewrite (main_startup_raises _ _ _ _ n _ _ _ Hs). simpl. auto.
Qed.

(** C7: when the watch set is empty after the initial resolution and
    --watch-new was not given, the run ends at once with [sys.exit()]
    (status 0): no pass of the loop begins and nothing is sent. *)
Theorem nothing_to_watch_exits
        (w : world) (re_search : string -> string -> bool)
        (env : environment) (a : arguments) (n : nat) (s1 : state) :
  resolve w re_search env a initial_state = (Return tt, s1) ->
  processes s1 = [] ->
  arg_watch_new a = false ->
  exit_status (fst (run w re_search env a n)) = Some 0%Z /\
  sleeps (snd (run w re_search env a n)) = 0 /\
  sent (snd (run w re_search env a n)) = [].
Proof.
  intros Hr Hp Hw.
  destruct (empty_watch_set_exits w re_search env a n s1 Hr Hp) as [He Hrest].
  - unfold watch_new. now rewrite Hw.
  - rewrite He. auto.
Qed.

Lemma nothing_to_watch_exits_witness :
  resolve empty_world substring_search healthy_env watch_nothing initial_state
  = (Return tt, initial_state) /\
  exit_status (fst (run empty_world substring_search healthy_env watch_nothing 5))
  = Some 0%Z.
Proof.
  split; [reflexivity|].
  apply (nothing_to_watch_exits empty_world substring_search healthy_env
           watch_nothing 5 initial_state); reflexivity.
Defined.

(** ** The watch set *)

Lemma contains_setitem (d : dict) (k : Z) (v : ProcessByPID) :
  contains (setitem d k v) k = true.
Proof.
  induction d as [|[k' v'] r IH]; simpl.
  - now rewrite Z.eqb_refl.
  - destruct (Z.eqb k' k) eqn:E; simpl.
    + now rewrite Z.eqb_refl.
    + now rewrite E.
Qed.

(** Under unique keys an identity has one object. *)
Lemma NoDup_keys_functional (d : dict) (k : Z) (h1 h2 : ProcessByPID) :
  NoDup (keys d) -> In (k, h1) d -> In (k, h2) d -> h1 = h2.
Proof.
  induction d as [|[k' v'] r IH]; simpl; intros Hnd H1 H2; [contradiction|].
  inversion Hnd as [|? ? Hnotin Hnd']; subst.
  assert (Hk : forall h, In (k', h) r -> False).
  { intros h Hin. apply Hnotin. unfold keys. apply in_map_iff.
    now exists (k', h). }
  destruct H1 as [H1|H1], H2 as [H2|H2].
  - congruence.
  - inversion H1; subst. now destruct (Hk h2).
  - inversion H2; subst. now destruct (Hk h1).
  - now apply IH.
Qed.

(** The watch set of a run is well formed, wherever the run stands. *)
Lemma run_wf (w : world) (re_search : string -> string -> bool)
      (env : environment) (a : arguments) (n : nat) :
  wf_dict (processes (snd (run w re_search env a n))).
Proof.
  apply (main_on_processes w re_search env wf_dict
           (watch_pid_wf w) del_process_wf a n initial_state).
  exact wf_dict_nil.
Qed.

Lemma resolve_wf (w : world) (re_search : string -> string -> bool)
      (env : environment) (a : arguments) :
  wf_dict (processes (snd (resolve w re_search env a initial_state))).
Proof.
  assert (H : preserves (on_processes wf_dict) (resolve w re_search env a)).
  { unfold resolve. pres.
    - apply load_comms_on_processes.
    - apply init_pids_on_processes. apply watch_pid_wf.
    - apply init_commands_on_processes. apply watch_pid_wf. }
  apply H. exact wf_dict_nil.
Qed.

(** C8: adding to the watch set is idempotent.  For an identity that is
    already watched the guarded assignment does nothing at all (no query of
    the process table, no new object); adding twice leaves the state that
    adding once leaves; and in every run, at any number of passes, an
    identity has at most one entry and one object. *)
Theorem watch_pid_idempotent
        (w : world) (p : Z) (s : state) :
  (In p (keys (processes s)) -> watch_pid w p s = (Return None, s)) /\
  snd ((watch_pid w p ;; watch_pid w p) s) = snd (watch_pid w p s) /\
  (forall re_search env a n,
      let d := processes (snd (run w re_search env a n)) in
      count_occ Z.eq_dec (keys d) p <= 1 /\
      forall h1 h2, In (p, h1) d -> In (p, h2) d -> h1 = h2).
Proof.
  split; [|split].
  - intros Hin. rewrite watch_pid_eq.
    apply contains_true in Hin. now rewrite Hin.
  - unfold bind. rewrite watch_pid_eq.
    destruct (contains (processes s) p) eqn:Ec.
    + rewrite watch_pid_eq, Ec. reflexivity.
    + destruct (lookup_pid p (w (clock s))); [|reflexivity].
      rewrite watch_pid_eq. simpl. now rewrite contains_setitem.
  - intros re_search env a n d.
    destruct (run_wf w re_search env a n) as [Hnd _]. fold d in Hnd. split.
    + now apply NoDup_count_occ.
    + intros h1 h2. now apply NoDup_keys_functional.
Qed.

Lemma watch_pid_idempotent_witness :
  In 100%Z (keys (processes (snd (run short_lived substring_search healthy_env
                                       watch_100 0)))) /\
  watch_pid short_lived 100
            (snd (run short_lived substring_search healthy_env watch_100 0))
  = (Return None, snd (run short_lived substring_search healthy_env watch_100 0)).
Proof.
  assert (H : In 100%Z (keys (processes (snd (run short_lived substring_search
                                                   healthy_env watch_100 0))))).
  { simpl. auto. }
  split; [exact H|].
  exact (proj1 (watch_pid_idempotent short_lived 100 _) H).
Defined.

(** C9: after the initial resolution and after every pass of the loop (and
    also where the run stopped, if it raised), no identity is twice among
    the keys of the watch set and every key maps to the object that was
    created for exactly that identity. *)
Theorem watch_set_well_formed
        (w : world) (re_search : string -> string -> bool)
        (env : environment) (a : arguments) (n : nat) :
  wf_dict (processes (snd (resolve w re_search env a initial_state))) /\
  wf_dict (processes (snd (run w re_search env a n))).
Proof.
  split; [apply resolve_wf|apply run_wf].
Qed.

(** ** --quiet *)

Lemma sim_ret {A} (a : A) : sim (ret a) (ret a).
Proof. intros s1 s2 H. split; [reflexivity|exact H]. Qed.

Lemma sim_raise {A} (e : exn) : sim (@raise A e) (raise e).
Proof. intros s1 s2 H. split; [reflexivity|exact H]. Qed.

Lemma sim_bind {A B} (m1 m2 : M A) (k1 k2 : A -> M B) :
  sim m1 m2 -> (forall a, sim (k1 a) (k2 a)) -> sim (bind m1 k1) (bind m2 k2).
Proof.
  intros Hm Hk s1 s2 H. unfold bind. destruct (Hm s1 s2 H) as [Hr Hs].
  destruct (m1 s1) as [[a1|e1] s1'], (m2 s2) as [[a2|e2] s2']; simpl in *;
    try discriminate.
  - inversion Hr; subst. now apply Hk.
  - inversion Hr; subst. split; [reflexivity|assumption].
Qed.

Lemma sim_for_each {A} (l : list A) (b1 b2 : A -> M unit) :
  (forall x, sim (b1 x) (b2 x)) -> sim (for_each l b1) (for_each l b2).
Proof.
  intros Hb. induction l as [|x r IH]; simpl.
  - apply sim_ret.
  - apply sim_bind; [apply Hb|intros _; exact IH].
Qed.

Lemma sim_try_except {A} (m1 m2 : M A) (h1 h2 : exn -> option (M A)) :
  sim m1 m2 ->
  (forall e, match h1 e, h2 e with
             | Some k1, Some k2 => sim k1 k2
             | None, None => True
             | _, _ => False
             end) ->
  sim (try_except m1 h1) (try_except m2 h2).
Proof.
  intros Hm Hh s1 s2 H. unfold try_except. destruct (Hm s1 s2 H) as [Hr Hs].
  destruct (m1 s1) as [[a1|e1] s1'], (m2 s2) as [[a2|e2] s2']; simpl in *;
    try discriminate.
  - split; assumption.
  - inversion Hr; subst. specialize (Hh e2).
    destruct (h1 e2), (h2 e2); try contradiction.
    + now apply Hh.
    + split; assumption.
Qed.

(** Printing or not printing makes no other difference. *)
Lemma sim_print (q1 q2 : bool) (l : printed) : sim (print q1 l) (print q2 l).
Proof.
  intros s1 s2 H. unfold print, modify, ret.
  destruct q1, q2; simpl; (split; [reflexivity|exact H]).
Qed.

Lemma sim_gets {A} (f : state -> A) :
  (forall s1 s2, same_but_stdout s1 s2 -> f s1 = f s2) -> sim (gets f) (gets f).
Proof. intros Hf s1 s2 H. split; [simpl; f_equal; now apply Hf|exact H]. Qed.

Lemma sim_modify (f : state -> state) :
  (forall s1 s2, same_but_stdout s1 s2 -> same_but_stdout (f s1) (f s2)) ->
  sim (modify f) (modify f).
Proof. intros Hf s1 s2 H. split; [reflexivity|now apply Hf]. Qed.

Ltac same_fields :=
  unfold same_but_stdout; simpl; intros;
  repeat match goal with H : _ /\ _ |- _ => destruct H end;
  repeat split; congruence.

Section Quiet.

Variable w : world.
Variable re_search : string -> string -> bool.
Variable env : environment.

Lemma sim_check (p : ProcessByPID) : sim (check w p) (check w p).
Proof.
  intros s1 s2 H. unfold check. simpl.
  replace (clock s2) with (clock s1) by apply H. split; [reflexivity|].
  revert H. same_fields.
Qed.

Lemma sim_pids_with_command_name (regexs : list string) :
  sim (pids_with_command_name w re_search regexs)
      (pids_with_command_name w re_search regexs).
Proof.
  intros s1 s2 H. unfold pids_with_command_name. simpl.
  replace (clock s2) with (clock s1) by apply H. split; [reflexivity|].
  revert H. same_fields.
Qed.

Lemma sim_ProcessByPID_init (p : Z) :
  sim (ProcessByPID_init w p) (ProcessByPID_init w p).
Proof.
  intros s1 s2 H. unfold ProcessByPID_init.
  replace (clock s2) with (clock s1) by apply H.
  destruct (lookup_pid p (w (clock s1))); simpl; (split; [reflexivity|]);
    revert H; same_fields.
Qed.

Lemma sim_send (p : ProcessByPID) (c : comm) : sim (send p c) (send p c).
Proof.
  intros s1 s2 H. unfold send.
  replace (clock s2) with (clock s1) by apply H.
  destruct (mod_send (fst c) (snd c) p (clock s1)); simpl;
    (split; [reflexivity|]); revert H; same_fields.
Qed.

Lemma sim_del_process (p : Z) : sim (del_process p) (del_process p).
Proof.
  intros s1 s2 H. unfold del_process.
  replace (processes s2) with (processes s1) by apply H.
  destruct (delitem (processes s1) p); simpl; (split; [reflexivity|]);
    revert H; same_fields.
Qed.

Lemma sim_sleep : sim sleep sleep.
Proof. apply sim_modify. same_fields. Qed.

End Quiet.

(** Decompose a [sim] goal along the structure of the two programs. *)
Ltac sim_step :=
  match goal with
  | |- sim (ret _) _ => apply sim_ret
  | |- sim (raise _) _ => apply sim_raise
  | |- sim (sys_exit _) _ => apply sim_raise
  | |- sim (bind _ _) _ => apply sim_bind; [|intro]
  | |- sim (for_each _ _) _ => apply sim_for_each; intro
  | |- sim (print _ _) _ => apply sim_print
  | |- sim (log _) _ => apply sim_modify; same_fields
  | |- sim (gets _) _ => apply sim_gets; same_fields
  | |- sim (modify _) _ => apply sim_modify; same_fields
  | |- sim sleep _ => apply sim_sleep
  | |- sim (check _ _) _ => apply sim_check
  | |- sim (send _ _) _ => apply sim_send
  | |- sim (del_process _) _ => apply sim_del_process
  | |- sim (ProcessByPID_init _ _) _ => apply sim_ProcessByPID_init
  | |- sim (pids_with_command_name _ _ _) _ => apply sim_pids_with_command_name
  | |- sim (match ?x with _ => _ end) _ => destruct x
  end.

Section QuietRuns.

Variable w : world.
Variable re_search : string -> string -> bool.
Variable env : environment.
Variable a : arguments.
Variables q1 q2 : bool.

Lemma sim_startup :
  sim (startup w re_search env (set_quiet q1 a))
      (startup w re_search env (set_quiet q2 a)).
Proof.
  unfold startup, resolve, load_comms, load_email, load_dbus_notify,
    init_pids, init_commands, report_watching, watch_pid, watch_new.
  simpl. repeat sim_step.
  apply sim_try_except; [repeat sim_step|].
  intros []; simpl; auto. repeat sim_step.
Qed.

Lemma sim_tick :
  sim (tick w re_search (set_quiet q1 a)) (tick w re_search (set_quiet q2 a)).
Proof.
  unfold tick, poll, scan, scan_item, notify, removals, discover_or_exit,
    discover, watch_pid, watch_new.
  simpl. repeat sim_step.
Qed.

Lemma sim_loop (n : nat) :
  sim (loop w re_search (set_quiet q1 a) n) (loop w re_search (set_quiet q2 a) n).
Proof.
  induction n as [|n IH]; simpl; [apply sim_ret|].
  apply sim_bind; [apply sim_tick|intros _; exact IH].
Qed.

Lemma sim_main (n : nat) :
  sim (main w re_search env (set_quiet q1 a) n)
      (main w re_search env (set_quiet q2 a) n).
Proof.
  unfold main. apply sim_bind; [apply sim_startup|intros _; apply sim_loop].
Qed.

End QuietRuns.

Lemma preserves_print_quiet (I : state -> Prop) (l : printed) :
  preserves I (print true l).
Proof. apply preserves_ret. Qed.

Section QuietOutput.

Variable w : world.
Variable re_search : string -> string -> bool.
Variable env : environment.
Variable a : arguments.

Let nothing_printed (s : state) : Prop := stdout s = [].

Ltac hush :=
  repeat first [apply preserves_print_quiet | pres_step];
  try (unfold nothing_printed; simpl; intros; assumption).

Lemma startup_prints_nothing :
  preserves nothing_printed (startup w re_search env (set_quiet true a)).
Proof.
  unfold startup, resolve, load_comms, load_email, load_dbus_notify,
    init_pids, init_commands, report_watching, watch_pid, watch_new.
  simpl. hush.
  apply preserves_try_except; [hush|].
  intros e k Hk. destruct e; inversion Hk; subst. hush.
Qed.

Lemma tick_prints_nothing :
  preserves nothing_printed (tick w re_search (set_quiet true a)).
Proof.
  unfold tick, poll, scan, scan_item, notify, removals, discover_or_exit,
    discover, watch_pid, watch_new.
  simpl. hush.
  intros s H. unfold del_process.
  destruct (delitem (processes s) x); exact H.
Qed.

Lemma main_prints_nothing (n : nat) :
  preserves nothing_printed (main w re_search env (set_quiet true a) n).
Proof.
  unfold main. apply preserves_bind; [apply startup_prints_nothing|intros _].
  induction n as [|n IH]; simpl; [apply preserves_ret|].
  apply preserves_bind; [apply tick_prints_nothing|intros _; exact IH].
Qed.

End QuietOutput.

(** C6: --quiet never suppresses a notification.  On the same command line,
    process table and modules, the run with -q and the run without it call
    the same [send]s with the same arguments in the same order, end alike
    (same result, same exit status) and leave the same state, stdout apart;
    with -q nothing is printed. *)
Theorem quiet_changes_stdout_only
        (w : world) (re_search : string -> string -> bool)
        (env : environment) (a : arguments) (n : nat) :
  let hushed := run w re_search env (set_quiet true a) n in
  let loud := run w re_search env (set_quiet false a) n in
  sent (snd hushed) = sent (snd loud) /\
  fst hushed = fst loud /\
  exit_status (fst hushed) = exit_status (fst loud) /\
  same_but_stdout (snd hushed) (snd loud) /\
  stdout (snd hushed) = [].
Proof.
  intros hushed loud.
  assert (Hinit : same_but_stdout initial_state initial_state)
    by (repeat split).
  destruct (sim_main w re_search env a true false n _ _ Hinit) as [Hr Hs].
  fold (run w re_search env (set_quiet true a) n) in Hr, Hs.
  fold (run w re_search env (set_quiet false a) n) in Hr, Hs.
  fold hushed in Hr, Hs. fold loud in Hr, Hs.
  repeat split; try apply Hs; try assumption.
  - now rewrite Hr.
  - apply (main_prints_nothing w re_search env a n initial_state). reflexivity.
Qed.

(** ** The dispatch to the communication modules *)

Lemma with_sent_nil (s : state) : with_sent (fun l => l ++ []) s = s.
Proof. destruct s. unfold with_sent. simpl. now rewrite app_nil_r. Qed.

Lemma with_sent_app (x y : list invocation) (s : state) :
  with_sent (fun l => l ++ y) (with_sent (fun l => l ++ x) s)
  = with_sent (fun l => l ++ (x ++ y)) s.
Proof. unfold with_sent. simpl. now rewrite app_assoc. Qed.

(** The loop of lines 126-127 as a function of the modules. *)
Lemma for_each_send_eq (cs : list comm) (p : ProcessByPID) (s : state) :
  for_each cs (send p) s =
  (match first_failure cs p (clock s) with
   | None => Return tt
   | Some c => Raise (SendError (mod_name (fst c)))
   end,
   with_sent (fun l => l ++ map (invocation_of p) (attempted cs p (clock s))) s).
Proof.
  revert s. induction cs as [|c r IH]; intros s; simpl.
  - unfold ret. now rewrite with_sent_nil.
  - unfold bind, send. fold (delivers_at p (clock s) c).
    destruct (delivers_at p (clock s) c); simpl; [|reflexivity].
    rewrite IH. simpl. fold (invocation_of p c).
    now rewrite (with_sent_app [invocation_of p c]).
Qed.

Lemma notify_eq (p : ProcessByPID) (s : state) :
  notify p s =
  (match first_failure (comms s) p (clock s) with
   | None => Return tt
   | Some c => Raise (SendError (mod_name (fst c)))
   end,
   with_sent (fun l => l ++ map (invocation_of p) (attempted (comms s) p (clock s))) s).
Proof. unfold notify, bind, gets. apply for_each_send_eq. Qed.

Lemma attempted_all (cs : list comm) (p : ProcessByPID) (t : nat) :
  (forall c, In c cs -> delivers_at p t c = true) ->
  attempted cs p t = cs /\ first_failure cs p t = None.
Proof.
  induction cs as [|c r IH]; simpl; intros H; [auto|].
  rewrite (H c) by now left. simpl.
  destruct IH as [-> ->]; auto.
Qed.

Lemma attempted_until (pre post : list comm) (c : comm) (p : ProcessByPID) (t : nat) :
  (forall c', In c' pre -> delivers_at p t c' = true) ->
  delivers_at p t c = false ->
  attempted (pre ++ c :: post) p t = pre ++ [c] /\
  first_failure (pre ++ c :: post) p t = Some c.
Proof.
  induction pre as [|x r IH]; simpl; intros Hpre Hc.
  - now rewrite Hc.
  - rewrite (Hpre x) by now left. simpl.
    destruct IH as [-> ->]; auto.
Qed.

(** Nothing in the loop catches what a pass raises. *)
Section Uncaught.

Variable w : world.
Variable re_search : string -> string -> bool.

Lemma scan_item_raises (a : arguments) (d1 d2 : dict) (kv : Z * ProcessByPID)
      (s s1 s2 : state) (e : exn) :
  processes s = d1 ++ kv :: d2 ->
  for_each d1 (scan_item w a) s = (Return tt, s1) ->
  scan_item w a kv s1 = (Raise e, s2) ->
  scan w a s = (Raise e, s2).
Proof.
  intros Hd H1 H2. unfold scan, bind, gets. rewrite Hd.
  eapply for_each_raises; eauto.
Qed.

Lemma poll_scan_raises (a : arguments) (s s' : state) (e : exn) :
  scan w a (snd (sleep s)) = (Raise e, s') -> poll w a s = (Raise e, s').
Proof.
  intros H. unfold poll. unfold bind at 1. simpl in *.
  unfold bind. now rewrite H.
Qed.

Lemma tick_poll_raises (a : arguments) (s s' : state) (e : exn) :
  poll w a s = (Raise e, s') -> tick w re_search a s = (Raise e, s').
Proof. intros H. unfold tick, bind. now rewrite H. Qed.

Lemma loop_tick_raises (a : arguments) (n : nat) (s s' : state) (e : exn) :
  tick w re_search a s = (Raise e, s') ->
  loop w re_search a (S n) s = (Raise e, s').
Proof. intros H. simpl. unfold bind. now rewrite H. Qed.

End Uncaught.

Section ScanItem.

Variable w : world.

Lemma scan_item_running (a : arguments) (kv : Z * ProcessByPID) (s : state) :
  running_in (w (clock s)) (snd kv) = true ->
  scan_item w a kv s = (Return tt, with_clock S s).
Proof.
  intros H. unfold scan_item, bind, check. now rewrite H.
Qed.

(** For a process that has ended, the body of the scan queues the identity,
    prints, and hands over to the dispatch one instant later. *)
Lemma scan_item_stopped (a : arguments) (kv : Z * ProcessByPID) (s : state) :
  running_in (w (clock s)) (snd kv) = false ->
  exists x,
    scan_item w a kv s = notify (snd kv) x /\
    clock x = S (clock s) /\ sleeps x = sleeps s /\
    processes x = processes s /\ to_delete x = to_delete s ++ [fst kv] /\
    comms x = comms s /\ sent x = sent s.
Proof.
  intros H. unfold scan_item, bind, check. rewrite H.
  unfold modify, print, ret. destruct (arg_quiet a); simpl;
    eexists; (split; [reflexivity|]); simpl; repeat split.
Qed.

End ScanItem.

(** ** The claim about the isolation of the modules *)

(** C1, as the script has it: for a process that a pass finds ended, the
    modules are called in the order they were loaded.  When every [send]
    returns, each module is called exactly once.  When a [send] raises,
    the modules loaded before it have been called, the ones loaded after it
    are not called for that process, and the exception, which nothing
    catches, ends the loop (exit status 1). *)
Theorem dispatch_stops_at_first_failure
        (w : world) (re_search : string -> string -> bool)
        (a : arguments) (n : nat) (s s1 : state)
        (d1 d2 : dict) (k : Z) (h : ProcessByPID) :
  processes s = d1 ++ (k, h) :: d2 ->
  for_each d1 (scan_item w a) (snd (sleep s)) = (Return tt, s1) ->
  running_in (w (clock s1)) h = false ->
  ((forall c, In c (comms s1) -> delivers_at h (S (clock s1)) c = true) ->
   exists s2,
     scan_item w a (k, h) s1 = (Return tt, s2) /\
     sent s2 = sent s1 ++ map (invocation_of h) (comms s1)) /\
  (forall pre c post,
      comms s1 = pre ++ c :: post ->
      (forall c', In c' pre -> delivers_at h (S (clock s1)) c' = true) ->
      delivers_at h (S (clock s1)) c = false ->
      exists s2,
        loop w re_search a (S n) s = (Raise (SendError (mod_name (fst c))), s2) /\
        sent s2 = sent s1 ++ map (invocation_of h) (pre ++ [c]) /\
        exit_status (fst (loop w re_search a (S n) s)) = Some 1%Z).
Proof.
  intros Hd Hscan Hstop.
  destruct (scan_item_stopped w a (k, h) s1 Hstop)
    as [x [Hx [Hclock [_ [_ [_ [Hcomms Hsent]]]]]]].
  simpl in Hx. split.
  - intros Hall. rewrite Hx, notify_eq, Hcomms, Hclock.
    destruct (attempted_all _ _ _ Hall) as [-> ->].
    eexists. split; [reflexivity|]. simpl. now rewrite Hsent.
  - intros pre c post Hc Hpre Hfail.
    destruct (attempted_until pre post c h _ Hpre Hfail) as [Hatt Hff].
    assert (Hitem : scan_item w a (k, h) s1
                    = (Raise (SendError (mod_name (fst c))),
                       with_sent (fun l => l ++ map (invocation_of h) (pre ++ [c])) x)).
    { rewrite Hx, notify_eq, Hcomms, Hclock, Hc, Hatt, Hff. reflexivity. }
    assert (Hloop : loop w re_search a (S n) s
                    = (Raise (SendError (mod_name (fst c))),
                       with_sent (fun l => l ++ map (invocation_of h) (pre ++ [c])) x)).
    { apply loop_tick_raises, tick_poll_raises, poll_scan_raises.
      eapply scan_item_raises; eauto. }
    eexists. split; [exact Hloop|]. split.
    + simpl. now rewrite Hsent.
    + now rewrite Hloop.
Qed.

Lemma dispatch_stops_at_first_failure_witness :
  let s := snd (run short_lived substring_search broken_email_env notify_both 0) in
  exists s2,
    loop short_lived substring_search notify_both 3 s
    = (Raise (SendError "email"), s2) /\
    map inv_module (sent s2) = ["email"].
Proof.
  intros s.
  destruct (proj2 (dispatch_stops_at_first_failure
                     short_lived substring_search notify_both 2 s (snd (sleep s))
                     [] [] 100 (mkProcessByPID 100 "sleep 60" "sleep" 5)
                     eq_refl eq_refl eq_refl)
                  [] (fails "email", ["a@b"]) [(delivers "dbus_notify", [])]
                  eq_refl (fun c' (H : In c' []) => match H with end) eq_refl)
    as [s2 [Hloop [Hsent _]]].
  exists s2. split; [exact Hloop|]. rewrite Hsent. reflexivity.
Defined.

(** C1, as the spec has it, fails: with the email module loaded first and
    raising, the desktop notification module, loaded and healthy, is never
    called for the process that ended, and the run stops in its first pass
    with the uncaught exception. *)
Lemma failing_sink_blocks_healthy_sink :
  let r := run short_lived substring_search broken_email_env notify_both 3 in
  map (fun c => mod_name (fst c)) (comms (snd r)) = ["email"; "dbus_notify"] /\
  fst r = Raise (SendError "email") /\
  exit_status (fst r) = Some 1%Z /\
  map inv_module (sent (snd r)) = ["email"] /\
  sleeps (snd r) = 1.
Proof. vm_compute. repeat split. Qed.

(** ** Matches that vanish before their object is created *)

Section Vanished.

Variable w : world.
Variable re_search : string -> string -> bool.
Variable env : environment.

Lemma harmless_print_info (q : bool) :
  harmless (fun h => match h with
                     | Some h => print q (PrInfo h)
                     | None => ret tt
                     end).
Proof.
  intros [h|] s; unfold print, modify, ret; [destruct q|];
    eexists; (split; [reflexivity|]); auto.
Qed.

Lemma init_commands_vanished (a : arguments) (p : Z) (s : state) :
  arg_command a <> [] ->
  vanished w re_search (arg_command a) p s ->
  exists q s', init_commands w re_search a s = (Raise (NoProcessFound q), s').
Proof.
  intros Hne [Hin [Hnot Hgone]]. unfold init_commands.
  destruct (arg_command a) as [|re res] eqn:E; [congruence|].
  unfold bind at 1. unfold pids_with_command_name.
  apply (for_each_watch_vanished w (fun _ => ret tt) _ p); auto using harmless_ret.
  simpl. intros t Ht. apply Hgone. lia.
Qed.

Lemma discover_vanished (a : arguments) (p : Z) (s : state) :
  vanished w re_search (arg_command a) p s ->
  exists q s', discover w re_search a s = (Raise (NoProcessFound q), s').
Proof.
  intros [Hin [Hnot Hgone]]. unfold discover.
  unfold bind at 1. unfold pids_with_command_name.
  apply (for_each_watch_vanished w
           (fun h => match h with
                     | Some h => print (arg_quiet a) (PrInfo h)
                     | None => ret tt
                     end) _ p); auto using harmless_print_info.
  simpl. intros t Ht. apply Hgone. lia.
Qed.

End Vanished.

(** ** The claim about identities that vanish *)

(** C2, as the script has it: when the process of an identity that the
    patterns matched (and that is not watched yet) has disappeared by the
    time its object is created, [NoProcessFound] is raised and nothing
    catches it, at the initial resolution and in the discovery of a pass
    alike: the identity is not skipped and the run ends there with exit
    status 1.  The failure of a PID of the command line is caught, and ends
    the run with [sys.exit(1)]. *)
Theorem vanished_match_is_fatal
        (w : world) (re_search : string -> string -> bool)
        (env : environment) (a : arguments) (p : Z) (n : nat) :
  (forall s0,
      (load_comms env a ;; init_pids w a) initial_state = (Return tt, s0) ->
      arg_command a <> [] ->
      vanished w re_search (arg_command a) p s0 ->
      exists q,
        fst (run w re_search env a n) = Raise (NoProcessFound q) /\
        exit_status (fst (run w re_search env a n)) = Some 1%Z) /\
  (forall s s0,
      watch_new a = true ->
      poll w a s = (Return tt, s0) ->
      vanished w re_search (arg_command a) p s0 ->
      exists q,
        fst (loop w re_search a (S n) s) = Raise (NoProcessFound q) /\
        exit_status (fst (loop w re_search a (S n) s)) = Some 1%Z) /\
  (explicit_pid_missing w a ->
   fst (run w re_search env a n) = Raise (SystemExit 1) /\
   exit_status (fst (run w re_search env a n)) = Some 1%Z).
Proof.
  split; [|split].
  - intros s0 Hpre Hne Hv.
    destruct (init_commands_vanished w re_search a p s0 Hne Hv) as [q [s' Hq]].
    exists q.
    assert (Hres : resolve w re_search env a initial_state
                   = (Raise (NoProcessFound q), s')).
    { unfold resolve. unfold bind in Hpre |- *.
      destruct (load_comms env a initial_state) as [[[]|e] s1]; [|discriminate].
      destruct (init_pids w a s1) as [[[]|e] s2]; [|discriminate].
      inversion Hpre; subst. exact Hq. }
    unfold run.
    rewrite (main_startup_raises _ _ _ _ n _ _ _
               (startup_resolve_raises _ _ _ _ _ _ _ Hres)).
    split; reflexivity.
  - intros s s0 Hwn Hpoll Hv.
    destruct (discover_vanished w re_search a p s0 Hv) as [q [s' Hq]].
    exists q.
    assert (Htick : tick w re_search a s = (Raise (NoProcessFound q), s')).
    { unfold tick, bind. rewrite Hpoll. unfold discover_or_exit.
      now rewrite Hwn. }
    rewrite (loop_tick_raises _ _ _ n _ _ _ Htick). split; reflexivity.
  - intros Hmiss.
    destruct (startup_fails w re_search env a (or_intror Hmiss)) as [s' Hs].
    unfold run. rewrite (main_startup_raises _ _ _ _ n _ _ _ Hs).
    split; reflexivity.
Qed.

Lemma vanished_match_is_fatal_witness :
  vanished vanishing_at_startup substring_search (arg_command watch_workers)
           7 initial_state /\
  exists q,
    fst (run vanishing_at_startup substring_search healthy_env watch_workers 3)
    = Raise (NoProcessFound q).
Proof.
  assert (Hv : vanished vanishing_at_startup substring_search
                        (arg_command watch_workers) 7 initial_state).
  { split; [simpl; auto|]. split; [simpl; auto|].
    intros t Ht. simpl in Ht. assert (t = 1) by lia. subst. reflexivity. }
  split; [exact Hv|].
  assert (Hne : arg_command watch_workers <> []) by discriminate.
  destruct (proj1 (vanished_match_is_fatal
                     vanishing_at_startup substring_search healthy_env
                     watch_workers 7 3)
                  initial_state eq_refl Hne Hv)
    as [q [Hq _]].
  exists q. exact Hq.
Defined.

(** C2, as the spec has it, fails: an identity that the patterns matched and
    that is gone when its object is created is not skipped.  At the initial
    resolution and in the discovery of the first pass, the run ends with the
    uncaught [NoProcessFound] and exit status 1. *)
Lemma vanished_match_aborts_run :
  (let r := run vanishing_at_startup substring_search healthy_env watch_workers 3 in
   fst r = Raise (NoProcessFound 7) /\
   exit_status (fst r) = Some 1%Z /\ sleeps (snd r) = 0) /\
  (let r := run vanishing_at_discovery substring_search healthy_env
                discover_workers 3 in
   fst r = Raise (NoProcessFound 7) /\
   exit_status (fst r) = Some 1%Z /\ sleeps (snd r) = 1).
Proof. vm_compute. repeat split. Qed.

(** ** One pass of the loop as functions of the watch set *)

Lemma first_failure_none (cs : list comm) (p : ProcessByPID) (t : nat) :
  first_failure cs p t = None -> attempted cs p t = cs.
Proof.
  unfold first_failure. induction cs as [|c r IH]; simpl; [reflexivity|].
  destruct (delivers_at p t c); simpl; [|discriminate].
  intros H. now rewrite IH.
Qed.

Lemma first_failure_some (cs : list comm) (p : ProcessByPID) (t : nat) (c : comm) :
  first_failure cs p t = Some c -> In c cs /\ delivers_at p t c = false.
Proof.
  unfold first_failure. intros H. apply find_some in H.
  destruct H as [Hin Hd]. split; [assumption|].
  now apply negb_true_iff in Hd.
Qed.

Section ScanModel.

Variable w : world.

(** The scan either returns, having checked every entry, queued the
    identities of the ended ones and called every module once for each of
    them, or stops at a [send] that raises. *)
Lemma scan_items_cases (a : arguments) (d : dict) (s : state) :
  (exists s',
      for_each d (scan_item w a) s = (Return tt, s') /\
      clock s' = clock s + List.length d /\ sleeps s' = sleeps s /\
      processes s' = processes s /\
      to_delete s' = to_delete s ++ keys (stopped w (clock s) d) /\
      comms s' = comms s /\
      sent s' = sent s ++ notifications (comms s) (stopped w (clock s) d)) \/
  (exists c p t s',
      In c (comms s) /\ delivers_at p t c = false /\
      for_each d (scan_item w a) s = (Raise (SendError (mod_name (fst c))), s')).
Proof.
  revert s. induction d as [|kv r IH]; intros s.
  - left. exists s. simpl. rewrite !app_nil_r.
    repeat split; auto.
  - simpl. unfold bind.
    destruct (running_in (w (clock s)) (snd kv)) eqn:Er.
    + rewrite (scan_item_running w a kv s Er).
      destruct (IH (with_clock S s)) as [[s' [Hf H]]|[c [p [t [s' [Hin [Hd Hf]]]]]]].
      * left. exists s'. rewrite Hf. simpl in H.
        destruct H as [Hc [Hsl [Hp [Htd [Hcs Hse]]]]].
        repeat split; auto. lia.
      * right. exists c, p, t, s'. rewrite Hf. auto.
    + destruct (scan_item_stopped w a kv s Er)
        as [x [Hx [Hclock [Hsl [Hproc [Htd [Hcomms Hsent]]]]]]].
      rewrite Hx, notify_eq.
      destruct (first_failure (comms x) (snd kv) (clock x)) as [c|] eqn:Eff.
      * right. apply first_failure_some in Eff. destruct Eff as [Hin Hd].
        rewrite Hcomms in Hin. eauto 8.
      * rewrite (first_failure_none _ _ _ Eff).
        set (y := with_sent (fun l => l ++ map (invocation_of (snd kv)) (comms x)) x).
        destruct (IH y) as [[s' [Hf H]]|[c [p [t [s' [Hin [Hd Hf]]]]]]].
        -- left. exists s'. rewrite Hf. subst y. simpl in H.
           destruct H as [Hc [Hsl' [Hp [Htd' [Hcs Hse]]]]].
           rewrite Hclock in *. rewrite Hcomms in *.
           repeat split; try congruence.
           ++ lia.
           ++ rewrite Htd', Htd, <- app_assoc. reflexivity.
           ++ rewrite Hse, Hsent, <- app_assoc. reflexivity.
        -- right. exists c, p, t, s'. rewrite Hf. subst y. simpl in Hin.
           rewrite Hcomms in Hin. auto.
Qed.

Lemma scan_cases (a : arguments) (s : state) :
  (exists s',
      scan w a s = (Return tt, s') /\
      clock s' = clock s + List.length (processes s) /\ sleeps s' = sleeps s /\
      processes s' = processes s /\
      to_delete s' = to_delete s ++ keys (stopped w (clock s) (processes s)) /\
      comms s' = comms s /\
      sent s' = sent s ++ notifications (comms s) (stopped w (clock s) (processes s))) \/
  (exists c p t s',
      In c (comms s) /\ delivers_at p t c = false /\
      scan w a s = (Raise (SendError (mod_name (fst c))), s')).
Proof. unfold scan, bind, gets. apply scan_items_cases. Qed.

End ScanModel.

(** ** The removals *)

Lemma remove_keys_step (l : list Z) (kv : Z * ProcessByPID) (d : dict) :
  remove_keys l (kv :: d)
  = if existsb (Z.eqb (fst kv)) l then remove_keys l d
    else kv :: remove_keys l d.
Proof.
  unfold remove_keys. simpl. now destruct (existsb (Z.eqb (fst kv)) l).
Qed.

Lemma remove_keys_nil (d : dict) : remove_keys [] d = d.
Proof.
  induction d as [|kv r IH]; [reflexivity|].
  rewrite remove_keys_step. simpl. now rewrite IH.
Qed.

Lemma remove_keys_cons (k : Z) (l : list Z) (d : dict) :
  remove_keys l (filter (fun kv => negb (Z.eqb (fst kv) k)) d)
  = remove_keys (k :: l) d.
Proof.
  induction d as [|kv r IH]; [reflexivity|].
  rewrite remove_keys_step. simpl existsb. simpl filter.
  destruct (Z.eqb (fst kv) k); cbn [negb orb]; [exact IH|].
  rewrite remove_keys_step.
  destruct (existsb (Z.eqb (fst kv)) l); [exact IH|].
  now rewrite IH.
Qed.

Lemma keys_filter_neq (k x : Z) (d : dict) :
  x <> k -> In x (keys d) ->
  In x (keys (filter (fun kv => negb (Z.eqb (fst kv) k)) d)).
Proof.
  unfold keys. intros Hne Hin. apply in_map_iff in Hin.
  destruct Hin as [kv [Hk Hin]]. apply in_map_iff. exists kv.
  split; [assumption|]. apply filter_In. split; [assumption|].
  apply negb_true_iff, Z.eqb_neq. congruence.
Qed.

(** Deleting distinct keys that are all present never raises [KeyError]. *)
Lemma for_each_del_process (l : list Z) (s : state) :
  NoDup l -> NoDup (keys (processes s)) -> incl l (keys (processes s)) ->
  for_each l del_process s = (Return tt, with_processes (remove_keys l) s).
Proof.
  revert s. induction l as [|k r IH]; intros s Hl Hd Hincl; simpl.
  - unfold ret. f_equal. destruct s. unfold with_processes. simpl.
    now rewrite remove_keys_nil.
  - inversion Hl as [|? ? Hnotin Hr]; subst.
    destruct (delitem_present (processes s) k) as [d' Hdel];
      [apply Hincl; now left|].
    unfold bind, del_process. rewrite Hdel.
    pose proof (delitem_filter _ _ _ Hd Hdel) as Hd'. subst d'.
    rewrite IH; simpl.
    + unfold with_processes. simpl. now rewrite remove_keys_cons.
    + assumption.
    + now apply keys_filter_NoDup.
    + intros x Hx. apply keys_filter_neq.
      * intros ->. contradiction.
      * apply Hincl. now right.
Qed.

Lemma remove_keys_absent (k : Z) (l : list Z) (d : dict) :
  ~ In k (keys d) -> remove_keys (k :: l) d = remove_keys l d.
Proof.
  induction d as [|kv r IH]; intros H; [reflexivity|].
  rewrite !remove_keys_step. simpl existsb.
  destruct (Z.eqb (fst kv) k) eqn:E.
  - apply Z.eqb_eq in E. exfalso. apply H. now left.
  - cbn [orb]. simpl in H. rewrite IH by tauto. reflexivity.
Qed.

Section Removals.

Variable w : world.

Lemma stopped_incl (t : nat) (d : dict) : incl (stopped w t d) d.
Proof.
  revert t. induction d as [|kv r IH]; intros t; simpl; [apply incl_refl|].
  destruct (running_in (w t) (snd kv)).
  - apply incl_tl, IH.
  - apply incl_cons; [now left|apply incl_tl, IH].
Qed.

Lemma still_running_incl (t : nat) (d : dict) : incl (still_running w t d) d.
Proof.
  revert t. induction d as [|kv r IH]; intros t; simpl; [apply incl_refl|].
  destruct (running_in (w t) (snd kv)).
  - apply incl_cons; [now left|apply incl_tl, IH].
  - apply incl_tl, IH.
Qed.

Lemma keys_incl (d1 d2 : dict) : incl d1 d2 -> incl (keys d1) (keys d2).
Proof.
  intros H k Hk. unfold keys in *. apply in_map_iff in Hk.
  destruct Hk as [kv [Hkv Hin]]. apply in_map_iff. exists kv. auto.
Qed.

Lemma stopped_keys_NoDup (t : nat) (d : dict) :
  NoDup (keys d) -> NoDup (keys (stopped w t d)).
Proof.
  revert t. induction d as [|kv r IH]; intros t H; simpl; [constructor|].
  inversion H as [|? ? Hnotin Hr]; subst.
  destruct (running_in (w t) (snd kv)); simpl; [now apply IH|].
  constructor; [|now apply IH].
  intros Hin. apply Hnotin. eapply keys_incl; [apply stopped_incl|exact Hin].
Qed.

(** Deleting the ended entries leaves the running ones. *)
Lemma remove_stopped (t : nat) (d : dict) :
  NoDup (keys d) -> remove_keys (keys (stopped w t d)) d = still_running w t d.
Proof.
  revert t. induction d as [|[k h] r IH]; intros t H; [reflexivity|].
  simpl in H. inversion H as [|? ? Hnotin Hr]; subst.
  cbn [stopped still_running snd].
  destruct (running_in (w t) h) eqn:Er; rewrite remove_keys_step; cbn [fst].
  - destruct (existsb (Z.eqb k) (keys (stopped w (S t) r))) eqn:Ex.
    + exfalso. apply existsb_exists in Ex. destruct Ex as [x [Hx Hk]].
      apply Z.eqb_eq in Hk. subst x. apply Hnotin.
      eapply keys_incl; [apply stopped_incl|exact Hx].
    + f_equal. now apply IH.
  - cbn [keys map fst existsb]. rewrite Z.eqb_refl. cbn [orb].
    fold (keys (stopped w (S t) r)).
    rewrite remove_keys_absent by assumption. now apply IH.
Qed.

(** Lines 129-133 after a scan that started with an empty [to_delete]. *)
Lemma removals_after_scan (t : nat) (s : state) :
  NoDup (keys (processes s)) ->
  to_delete s = keys (stopped w t (processes s)) ->
  exists s',
    removals s = (Return tt, s') /\
    clock s' = clock s /\ sleeps s' = sleeps s /\
    processes s' = still_running w t (processes s) /\
    to_delete s' = [] /\ comms s' = comms s /\ sent s' = sent s.
Proof.
  intros Hnd Htd. unfold removals, bind, gets.
  destruct (to_delete s) as [|k l] eqn:E.
  - exists s. unfold ret. repeat split; auto.
    rewrite <- (remove_stopped t) by assumption.
    rewrite <- Htd. now rewrite remove_keys_nil.
  - rewrite for_each_del_process.
    + eexists. split; [reflexivity|]. simpl. repeat split.
      rewrite Htd. now apply remove_stopped.
    + rewrite Htd. now apply stopped_keys_NoDup.
    + assumption.
    + rewrite Htd. apply keys_incl, stopped_incl.
Qed.

Lemma poll_eq (a : arguments) (s : state) :
  poll w a s = (scan w a ;; removals) (with_sleeps S (with_clock S s)).
Proof. reflexivity. Qed.

(** Sleep, scan, remove: the pass returns with the running entries left
    and one call per module for each ended entry, or a [send] raised. *)
Lemma poll_cases (a : arguments) (s : state) :
  NoDup (keys (processes s)) ->
  to_delete s = [] ->
  (exists s',
      poll w a s = (Return tt, s') /\
      clock s' = S (clock s) + List.length (processes s) /\
      sleeps s' = S (sleeps s) /\
      processes s' = still_running w (S (clock s)) (processes s) /\
      to_delete s' = [] /\ comms s' = comms s /\
      sent s' = sent s ++ notifications (comms s)
                            (stopped w (S (clock s)) (processes s))) \/
  (exists c p t s',
      In c (comms s) /\ delivers_at p t c = false /\
      poll w a s = (Raise (SendError (mod_name (fst c))), s')).
Proof.
  intros Hnd Htd. rewrite poll_eq.
  set (s0 := with_sleeps S (with_clock S s)).
  destruct (scan_cases w a s0)
    as [[s1 [Hscan [Hc [Hsl [Hp [Htd1 [Hcs Hse]]]]]]]|[c [p [t [s' [Hin [Hd Hf]]]]]]].
  - subst s0. simpl in *. rewrite Htd in Htd1. simpl in Htd1.
    destruct (removals_after_scan (S (clock s)) s1) as [s2 H2].
    + now rewrite Hp.
    + now rewrite Hp.
    + left. exists s2. unfold bind. rewrite Hscan.
      destruct H2 as [Hr [Hc2 [Hsl2 [Hp2 [Htd2 [Hcs2 Hse2]]]]]].
      split; [exact Hr|]. rewrite Hp in Hp2.
      repeat split; congruence.
  - right. exists c, p, t, s'. unfold bind. rewrite Hf. auto.
Qed.

End Removals.

(** ** Which exceptions a program can raise *)

Lemma raises_only_ret {A} (E : exn -> Prop) (a : A) : raises_only E (ret a).
Proof. intros s e s' H. discriminate. Qed.

Lemma raises_only_gets {A} (E : exn -> Prop) (f : state -> A) :
  raises_only E (gets f).
Proof. intros s e s' H. discriminate. Qed.

Lemma raises_only_modify (E : exn -> Prop) (f : state -> state) :
  raises_only E (modify f).
Proof. intros s e s' H. discriminate. Qed.

Lemma raises_only_print (E : exn -> Prop) (q : bool) (l : printed) :
  raises_only E (print q l).
Proof. intros s e s' H. unfold print in H. destruct q; discriminate. Qed.

Lemma raises_only_log (E : exn -> Prop) (l : logged) : raises_only E (log l).
Proof. intros s e s' H. discriminate. Qed.

Lemma raises_only_raise {A} (E : exn -> Prop) (e : exn) :
  E e -> raises_only E (@raise A e).
Proof. intros He s e' s' H. inversion H; subst. exact He. Qed.

Lemma raises_only_bind {A B} (E : exn -> Prop) (m : M A) (k : A -> M B) :
  raises_only E m -> (forall a, raises_only E (k a)) -> raises_only E (bind m k).
Proof.
  intros Hm Hk s e s' H. unfold bind in H.
  destruct (m s) as [[a|e0] s0] eqn:Em.
  - now apply (Hk a s0 e s').
  - inversion H; subst. now apply (Hm s e s').
Qed.

Lemma raises_only_for_each {A} (E : exn -> Prop) (l : list A) (body : A -> M unit) :
  (forall x, raises_only E (body x)) -> raises_only E (for_each l body).
Proof.
  intros Hb. induction l as [|x r IH]; simpl.
  - apply raises_only_ret.
  - apply raises_only_bind; [apply Hb|intros _; exact IH].
Qed.

Lemma raises_only_try_except {A} (E : exn -> Prop) (m : M A) (h : exn -> option (M A)) :
  raises_only (fun e => h e = None -> E e) m ->
  (forall e k, h e = Some k -> raises_only E k) ->
  raises_only E (try_except m h).
Proof.
  intros Hm Hh s e s' H. unfold try_except in H.
  destruct (m s) as [[a|e0] s0] eqn:Em; [discriminate|].
  destruct (h e0) as [k|] eqn:Eh.
  - now apply (Hh e0 k Eh s0 e s').
  - inversion H; subst. now apply (Hm s e s').
Qed.

Section RaisesOnly.

Variable w : world.
Variable re_search : string -> string -> bool.
Variable E : exn -> Prop.

Lemma raises_only_sleep : raises_only E sleep.
Proof. apply raises_only_modify. Qed.

Lemma raises_only_check (p : ProcessByPID) : raises_only E (check w p).
Proof. intros s e s' H. discriminate. Qed.

Lemma raises_only_pids_with_command_name (regexs : list string) :
  raises_only E (pids_with_command_name w re_search regexs).
Proof. intros s e s' H. discriminate. Qed.

Lemma raises_only_send (p : ProcessByPID) (c : comm) :
  (forall module_name, E (SendError module_name)) -> raises_only E (send p c).
Proof.
  intros HE s e s' H. unfold send in H.
  destruct (mod_send (fst c) (snd c) p (clock s)); inversion H; subst. apply HE.
Qed.

Lemma raises_only_del_process (p : Z) :
  (forall k, E (KeyError k)) -> raises_only E (del_process p).
Proof.
  intros HE s e s' H. unfold del_process in H.
  destruct (delitem (processes s) p); inversion H; subst. apply HE.
Qed.

Lemma raises_only_ProcessByPID_init (p : Z) :
  (forall k, E (NoProcessFound k)) -> raises_only E (ProcessByPID_init w p).
Proof.
  intros HE s e s' H. unfold ProcessByPID_init in H.
  destruct (lookup_pid p (w (clock s))); inversion H; subst. apply HE.
Qed.

End RaisesOnly.

(** Decompose a [raises_only] goal along the structure of the program. *)
Ltac raises_step :=
  match goal with
  | |- raises_only _ (ret _) => apply raises_only_ret
  | |- raises_only _ (gets _) => apply raises_only_gets
  | |- raises_only _ (modify _) => apply raises_only_modify
  | |- raises_only _ (print _ _) => apply raises_only_print
  | |- raises_only _ (log _) => apply raises_only_log
  | |- raises_only _ sleep => apply raises_only_sleep
  | |- raises_only _ (check _ _) => apply raises_only_check
  | |- raises_only _ (pids_with_command_name _ _ _) =>
      apply raises_only_pids_with_command_name
  | |- raises_only _ (send _ _) => apply raises_only_send
  | |- raises_only _ (del_process _) => apply raises_only_del_process
  | |- raises_only _ (ProcessByPID_init _ _) => apply raises_only_ProcessByPID_init
  | |- raises_only _ (raise _) => apply raises_only_raise
  | |- raises_only _ (sys_exit _) => apply raises_only_raise
  | |- raises_only _ (bind _ _) => apply raises_only_bind; [|intro]
  | |- raises_only _ (for_each _ _) => apply raises_only_for_each; intro
  | |- raises_only _ (match ?x with _ => _ end) => destruct x
  end.

Ltac raises :=
  repeat raises_step;
  try (unfold not_an_exit, not_a_success; intros; discriminate).

Section LoopExit.

Variable w : world.
Variable re_search : string -> string -> bool.
Variable env : environment.

Lemma poll_never_exits (a : arguments) : raises_only not_an_exit (poll w a).
Proof. unfold poll, scan, scan_item, notify, removals. raises. Qed.

Lemma discover_never_exits (a : arguments) :
  raises_only not_an_exit (discover w re_search a).
Proof. unfold discover, watch_pid. raises. Qed.

Lemma tick_never_exits (a : arguments) :
  watch_new a = true -> raises_only not_an_exit (tick w re_search a).
Proof.
  intros Hwn. unfold tick, discover_or_exit. rewrite Hwn.
  apply raises_only_bind; [apply poll_never_exits|intros _].
  apply discover_never_exits.
Qed.

Lemma loop_never_exits (a : arguments) (n : nat) :
  watch_new a = true -> raises_only not_an_exit (loop w re_search a n).
Proof.
  intros Hwn. induction n as [|n IH]; simpl; [apply raises_only_ret|].
  apply raises_only_bind; [now apply tick_never_exits|intros _; exact IH].
Qed.

Lemma startup_never_succeeds_early (a : arguments) :
  watch_new a = true ->
  raises_only not_a_success (startup w re_search env a).
Proof.
  intros Hwn.
  unfold startup, resolve, load_comms, load_email, load_dbus_notify,
    init_commands, report_watching, watch_pid.
  rewrite Hwn. raises.
  unfold init_pids, watch_pid. apply raises_only_try_except.
  - raises.
  - intros e k Hk. destruct e; inversion Hk; subst. raises.
Qed.

Lemma main_never_succeeds (a : arguments) (n : nat) :
  watch_new a = true ->
  raises_only not_a_success (main w re_search env a n).
Proof.
  intros Hwn. unfold main.
  apply raises_only_bind; [now apply startup_never_succeeds_early|intros _].
  intros s e s' H. apply (loop_never_exits a n Hwn) in H. apply H.
Qed.

End LoopExit.

(** ** The claim about the end of the loop *)

Lemma exit_status_success {A} (r : result A) :
  exit_status r = Some 0%Z -> r = Raise (SystemExit 0).
Proof.
  destruct r as [a|[]]; simpl; intros H; try discriminate.
  now inversion H.
Qed.

(** A pass that leaves through [sys.exit] does so at line 142. *)
Lemma tick_exit_inv (w : world) (re_search : string -> string -> bool)
      (a : arguments) (s : state) (c : Z) :
  fst (tick w re_search a s) = Raise (SystemExit c) ->
  c = 0%Z /\ watch_new a = false /\
  exists s', poll w a s = (Return tt, s') /\ processes s' = [].
Proof.
  unfold tick, bind. destruct (poll w a s) as [[[]|e] s'] eqn:Ep.
  - unfold discover_or_exit. destruct (watch_new a) eqn:Ew.
    + intros H. destruct (discover w re_search a s') as [r s''] eqn:Ed.
      simpl in H. subst r.
      now destruct (discover_never_exits w re_search a _ _ _ Ed c).
    + unfold bind, gets, sys_exit, raise, ret.
      destruct (processes s') eqn:Ed; simpl; intros H; [|discriminate].
      inversion H; subst. eauto.
  - simpl. intros H. inversion H; subst.
    now destruct (poll_never_exits w a _ _ _ Ep c).
Qed.

(** C4: a pass of the loop ends the run with [sys.exit()] (status 0) exactly
    when discovery is off and the watch set is empty after the removals of
    that pass; it is the only exit of a pass.  With discovery on, no number
    of passes reaches a [sys.exit], whatever the watch set holds, and the
    run as a whole never ends with status 0. *)
Theorem loop_exit_condition
        (w : world) (re_search : string -> string -> bool)
        (env : environment) (a : arguments) (s : state) :
  (fst (tick w re_search a s) = Raise (SystemExit 0) <->
   watch_new a = false /\
   exists s', poll w a s = (Return tt, s') /\ processes s' = []) /\
  (forall c, fst (tick w re_search a s) = Raise (SystemExit c) -> c = 0%Z) /\
  (watch_new a = true ->
   forall n c, fst (loop w re_search a n s) <> Raise (SystemExit c)) /\
  (watch_new a = true ->
   forall n, exit_status (fst (run w re_search env a n)) <> Some 0%Z).
Proof.
  split; [split|split; [|split]].
  - intros H. now apply tick_exit_inv in H.
  - intros [Hwn [s' [Hp Hd]]].
    unfold tick, bind. rewrite Hp. unfold discover_or_exit. rewrite Hwn.
    unfold bind, gets. now rewrite Hd.
  - intros c H. now apply tick_exit_inv in H.
  - intros Hwn n c H.
    destruct (loop w re_search a n s) as [r s'] eqn:El. simpl in H. subst r.
    now destruct (loop_never_exits w re_search a n Hwn _ _ _ El c).
  - intros Hwn n H. apply exit_status_success in H.
    unfold run in H.
    destruct (main w re_search env a n initial_state) as [r s'] eqn:Em.
    simpl in H. subst r.
    now destruct (main_never_succeeds w re_search env a n Hwn _ _ _ Em).
Qed.

Lemma loop_exit_condition_witness :
  watch_new discover_workers = true /\
  exit_status (fst (run empty_world substring_search healthy_env
                        discover_workers 5)) <> Some 0%Z.
Proof.
  split; [reflexivity|].
  exact (proj2 (proj2 (proj2 (loop_exit_condition
                                empty_world substring_search healthy_env
                                discover_workers initial_state)))
               eq_refl 5).
Defined.

Lemma scan_empty (w : world) (a : arguments) (s : state) :
  processes s = [] -> scan w a s = (Return tt, s).
Proof. intros H. unfold scan, bind, gets. now rewrite H. Qed.

Lemma removals_empty (s : state) :
  to_delete s = [] -> removals s = (Return tt, s).
Proof. intros H. unfold removals, bind, gets. now rewrite H. Qed.

(** With patterns, discovery on and nothing that matches, the loop is still
    running after any number of passes, its watch set empty. *)
Lemma discovery_runs_on_empty (re_search : string -> string -> bool)
      (a : arguments) (n : nat) (s : state) :
  watch_new a = true -> processes s = [] -> to_delete s = [] ->
  exists s', loop empty_world re_search a n s = (Return tt, s')
             /\ processes s' = [] /\ to_delete s' = [].
Proof.
  intros Hwn. revert s. induction n as [|n IH]; intros s Hp Htd; simpl.
  - exists s. auto.
  - unfold bind at 1.
    assert (Ht : tick empty_world re_search a s
                 = (Return tt, with_clock S (with_sleeps S (with_clock S s)))).
    { unfold tick, bind. rewrite poll_eq. unfold bind.
      rewrite scan_empty by exact Hp. rewrite removals_empty by exact Htd.
      unfold discover_or_exit. rewrite Hwn. reflexivity. }
    rewrite Ht. now apply IH.
Qed.

(** ** A process that has ended *)

Lemma about_app (k : Z) (l1 l2 : list invocation) :
  about k (l1 ++ l2) = about k l1 ++ about k l2.
Proof. apply filter_app. Qed.

Lemma about_calls (k : Z) (h : ProcessByPID) (cs : list comm) :
  about k (map (invocation_of h) cs)
  = if Z.eqb (pid h) k then map (invocation_of h) cs else [].
Proof.
  unfold about. induction cs as [|c r IH]; simpl.
  - now destruct (Z.eqb (pid h) k).
  - rewrite IH. now destruct (Z.eqb (pid h) k).
Qed.

Lemma about_notifications_absent (k : Z) (cs : list comm) (d : dict) :
  (forall k' h', In (k', h') d -> pid h' = k') ->
  ~ In k (keys d) ->
  about k (notifications cs d) = [].
Proof.
  induction d as [|[k0 h0] r IH]; simpl; intros Hpid Hk; [reflexivity|].
  rewrite about_app, about_calls.
  rewrite (Hpid k0 h0) by now left.
  destruct (Z.eqb k0 k) eqn:E.
  - apply Z.eqb_eq in E. tauto.
  - simpl. apply IH; [|tauto]. intros k' h' Hin. apply Hpid. now right.
Qed.

Lemma about_notifications (k : Z) (h : ProcessByPID) (cs : list comm) (d : dict) :
  wf_dict d -> In (k, h) d ->
  about k (notifications cs d) = map (invocation_of h) cs.
Proof.
  induction d as [|[k0 h0] r IH]; intros [Hnd Hpid] Hin; [contradiction|].
  simpl in Hnd. inversion Hnd as [|? ? Hnotin Hr]; subst.
  assert (Hpid' : forall k' h', In (k', h') r -> pid h' = k')
    by (intros k' h' H'; apply Hpid; now right).
  simpl. rewrite about_app, about_calls.
  rewrite (Hpid k0 h0) by now left.
  destruct Hin as [Heq|Hin].
  - inversion Heq; subst. rewrite Z.eqb_refl.
    rewrite about_notifications_absent by assumption. apply app_nil_r.
  - assert (k0 <> k).
    { intros ->. apply Hnotin. unfold keys. apply in_map_iff.
      now exists (k, h). }
    replace (Z.eqb k0 k) with false by (symmetry; now apply Z.eqb_neq).
    simpl. apply IH; [split|]; assumption.
Qed.

Section EndedProcess.

Variable w : world.
Variable re_search : string -> string -> bool.

Lemma wf_dict_incl (d d' : dict) :
  wf_dict d -> incl d' d -> NoDup (keys d') -> wf_dict d'.
Proof.
  intros [_ Hpid] Hincl Hnd. split; [assumption|].
  intros k h Hin. apply Hpid. now apply Hincl.
Qed.

Lemma still_running_wf (t : nat) (d : dict) :
  wf_dict d -> wf_dict (still_running w t d).
Proof.
  intros H. apply (wf_dict_incl d); [assumption|apply still_running_incl|].
  destruct H as [Hnd _]. rewrite <- (remove_stopped w t d Hnd).
  now apply keys_filter_NoDup.
Qed.

Lemma stopped_wf (t : nat) (d : dict) : wf_dict d -> wf_dict (stopped w t d).
Proof.
  intros H. apply (wf_dict_incl d); [assumption|apply stopped_incl|].
  apply stopped_keys_NoDup, H.
Qed.

(** An entry found ended is not among the entries left. *)
Lemma stopped_not_still_running (t : nat) (d : dict) (k : Z) (h : ProcessByPID) :
  NoDup (keys d) -> In (k, h) (stopped w t d) ->
  ~ In k (keys (still_running w t d)).
Proof.
  revert t. induction d as [|[k0 h0] r IH]; intros t Hnd Hin; [contradiction|].
  simpl in Hnd. inversion Hnd as [|? ? Hnotin Hr]; subst.
  simpl in *. destruct (running_in (w t) h0).
  - simpl. intros [Heq|Hin'].
    + subst k0. apply Hnotin.
      apply (keys_incl _ _ (stopped_incl w (S t) r)).
      unfold keys. apply in_map_iff. now exists (k, h).
    + now apply (IH (S t) Hr Hin).
  - destruct Hin as [Heq|Hin].
    + inversion Heq; subst. intros Hin'. apply Hnotin.
      now apply (keys_incl _ _ (still_running_incl w (S t) r)).
    + now apply IH.
Qed.

Lemma send_forgotten (k : Z) (l : list invocation) (p : ProcessByPID) (c : comm) :
  pid p <> k -> preserves (forgotten k l) (send p c).
Proof.
  intros Hk s [Hwf [Hnot Hab]]. unfold send.
  assert (Hs : about k (sent s ++ [invocation_of p c]) = l).
  { rewrite about_app, Hab. unfold about. simpl.
    replace (Z.eqb (pid p) k) with false by (symmetry; now apply Z.eqb_neq).
    apply app_nil_r. }
  destruct (mod_send (fst c) (snd c) p (clock s)); simpl;
    (split; [exact Hwf|split; [exact Hnot|exact Hs]]).
Qed.

Lemma scan_item_forgotten (a : arguments) (k : Z) (l : list invocation)
      (kv : Z * ProcessByPID) :
  pid (snd kv) <> k ->
  preserves (forgotten k l) (scan_item w a kv).
Proof.
  intros Hk. unfold scan_item, notify.
  repeat first [apply send_forgotten; assumption | pres_step];
    unfold forgotten; simpl; intros; assumption.
Qed.

Lemma scan_forgotten (a : arguments) (k : Z) (l : list invocation) :
  preserves (forgotten k l) (scan w a).
Proof.
  intros s H. unfold scan, bind, gets.
  apply (preserves_for_each (forgotten k l) (processes s) (scan_item w a));
    [|exact H].
  intros [k' h'] Hin. apply scan_item_forgotten. simpl.
  destruct H as [[Hnd Hpid] [Hnot _]]. rewrite (Hpid k' h' Hin).
  intros ->. apply Hnot. unfold keys. apply in_map_iff. now exists (k, h').
Qed.

Lemma del_process_forgotten (k : Z) (l : list invocation) (p : Z) :
  preserves (forgotten k l) (del_process p).
Proof.
  intros s [Hwf [Hnot Hab]]. unfold del_process.
  destruct (delitem (processes s) p) as [d|] eqn:E; simpl;
    [|split; [exact Hwf|split; [exact Hnot|exact Hab]]].
  split; [eapply wf_delitem; eauto|]. split; [|exact Hab].
  intros Hin. apply Hnot.
  now apply (keys_incl _ _ (delitem_incl _ _ _ E)).
Qed.

(** Without discovery, a forgotten identity stays forgotten. *)
Lemma tick_forgotten (a : arguments) (k : Z) (l : list invocation) :
  watch_new a = false -> preserves (forgotten k l) (tick w re_search a).
Proof.
  intros Hwn. unfold tick, poll, removals, discover_or_exit. rewrite Hwn.
  repeat first [apply scan_forgotten | apply del_process_forgotten | pres_step];
    unfold forgotten; simpl; intros; assumption.
Qed.

Lemma loop_forgotten (a : arguments) (k : Z) (l : list invocation) (n : nat) :
  watch_new a = false -> preserves (forgotten k l) (loop w re_search a n).
Proof.
  intros Hwn. induction n as [|n IH]; simpl; [apply preserves_ret|].
  apply preserves_bind; [now apply tick_forgotten|intros _; exact IH].
Qed.

Lemma discover_or_exit_forgotten (a : arguments) (k : Z) (l : list invocation) :
  watch_new a = false -> preserves (forgotten k l) (discover_or_exit w re_search a).
Proof.
  intros Hwn. unfold discover_or_exit. rewrite Hwn. pres.
Qed.

End EndedProcess.

(** ** Between two passes [to_delete] is empty *)

Section NothingQueued.

Variable w : world.
Variable re_search : string -> string -> bool.
Variable env : environment.

Ltac frame := pres; try (unfold nothing_queued; simpl; intros; assumption).

Lemma startup_nothing_queued (a : arguments) :
  preserves nothing_queued (startup w re_search env a).
Proof.
  unfold startup, resolve, load_comms, load_email, load_dbus_notify,
    init_commands, report_watching, init_pids, watch_pid.
  frame. apply preserves_try_except; [frame|].
  intros e k Hk. destruct e; inversion Hk; subst. frame.
Qed.

Lemma discover_or_exit_nothing_queued (a : arguments) :
  preserves nothing_queued (discover_or_exit w re_search a).
Proof. unfold discover_or_exit, discover, watch_pid. frame. Qed.

(** A pass that returns leaves a well-formed watch set and an empty
    [to_delete]. *)
Lemma tick_returns_clean (a : arguments) (s s' : state) :
  wf_dict (processes s) -> nothing_queued s ->
  tick w re_search a s = (Return tt, s') ->
  wf_dict (processes s') /\ nothing_queued s'.
Proof.
  intros Hwf Htd Ht. split.
  - pose proof (tick_on_processes w re_search wf_dict (watch_pid_wf w)
                                  del_process_wf a s Hwf) as H.
    now rewrite Ht in H.
  - unfold tick, bind in Ht.
    destruct (poll_cases w a s (proj1 Hwf) Htd)
      as [[s1 [Hp [_ [_ [_ [Htd1 _]]]]]]|[c [p [t [s1 [_ [_ Hp]]]]]]];
      rewrite Hp in Ht; [|discriminate].
    pose proof (discover_or_exit_nothing_queued a s1 Htd1) as H.
    now rewrite Ht in H.
Qed.

Lemma loop_returns_clean (a : arguments) (n : nat) (s s' : state) :
  wf_dict (processes s) -> nothing_queued s ->
  loop w re_search a n s = (Return tt, s') ->
  wf_dict (processes s') /\ nothing_queued s'.
Proof.
  revert s. induction n as [|n IH]; simpl; intros s Hwf Htd Hl.
  - inversion Hl; subst. auto.
  - unfold bind in Hl.
    destruct (tick w re_search a s) as [[[]|e] s1] eqn:Et; [|discriminate].
    destruct (tick_returns_clean a s s1 Hwf Htd Et) as [Hwf1 Htd1].
    now apply (IH s1).
Qed.

(** While the run goes on, the state between two passes is clean. *)
Lemma run_returns_clean (a : arguments) (n : nat) :
  fst (run w re_search env a n) = Return tt ->
  wf_dict (processes (snd (run w re_search env a n))) /\
  nothing_queued (snd (run w re_search env a n)).
Proof.
  unfold run, main, bind.
  pose proof (startup_nothing_queued a initial_state eq_refl) as Htd.
  pose proof (startup_on_processes w re_search env wf_dict (watch_pid_wf w)
                                   a initial_state wf_dict_nil) as Hwf.
  destruct (startup w re_search env a initial_state) as [[[]|e] s1];
    [|discriminate].
  simpl in Htd, Hwf. unfold on_processes in Hwf.
  destruct (loop w re_search a n s1) as [r s'] eqn:El. simpl. intros ->.
  now apply (loop_returns_clean a n s1 s').
Qed.

End NothingQueued.

(** ** The claim about a process that has ended *)

(** C3, as the script has it.  Take the state between two passes of a run
    that goes on, and an entry whose [check] reports in the next pass that
    the process has ended.  When no [send] raises, that pass calls every
    loaded module exactly once for it, in the order of [comms], and the
    identity is out of the watch set once the scan is over and the removals
    are made.  Without discovery the identity is never watched again and no
    later call is about it.  (With discovery a later match may add the
    identity again, as a new entry: the world [recycled] shows it.) *)
Theorem ended_process_notified_once
        (w : world) (re_search : string -> string -> bool)
        (env : environment) (a : arguments) (n : nat)
        (k : Z) (h : ProcessByPID) :
  let s := snd (run w re_search env a n) in
  fst (run w re_search env a n) = Return tt ->
  reliable (comms s) ->
  In (k, h) (stopped w (S (clock s)) (processes s)) ->
  exists s',
    poll w a s = (Return tt, s') /\
    (exists new, sent s' = sent s ++ new /\
                 about k new = map (invocation_of h) (comms s)) /\
    ~ In k (keys (processes s')) /\
    (watch_new a = false ->
     forall m,
       let s'' := snd ((discover_or_exit w re_search a ;; loop w re_search a m) s') in
       ~ In k (keys (processes s'')) /\ about k (sent s'') = about k (sent s')).
Proof.
  intros s Hrun Hrel Hin.
  destruct (run_returns_clean w re_search env a n Hrun) as [Hwf Htd].
  fold s in Hwf, Htd.
  destruct (poll_cases w a s (proj1 Hwf) Htd)
    as [[s' [Hp [_ [_ [Hproc [_ [_ Hsent]]]]]]]|[c [p [t [s' [Hc [Hd _]]]]]]].
  - exists s'. split; [exact Hp|].
    assert (Hnot : ~ In k (keys (processes s'))).
    { rewrite Hproc. eapply stopped_not_still_running; [apply Hwf|exact Hin]. }
    split; [|split; [exact Hnot|]].
    + eexists. split; [exact Hsent|].
      apply about_notifications; [now apply stopped_wf|exact Hin].
    + intros Hwn m s''.
      assert (Hf : forgotten k (about k (sent s')) s').
      { split; [|split; [exact Hnot|reflexivity]].
        rewrite Hproc. now apply still_running_wf. }
      assert (Hf'' : forgotten k (about k (sent s')) s'').
      { apply preserves_bind; [| |exact Hf].
        - now apply discover_or_exit_forgotten.
        - intros _. now apply loop_forgotten. }
      destruct Hf'' as [_ [H1 H2]]. auto.
  - rewrite (Hrel c Hc p t) in Hd. discriminate.
Qed.

Lemma ended_process_notified_once_witness :
  let h := mkProcessByPID 100 "sleep 60" "sleep" 5 in
  let s := snd (run short_lived substring_search healthy_env notify_both 0) in
  exists s',
    poll short_lived notify_both s = (Return tt, s') /\
    (exists new, sent s' = sent s ++ new /\
                 about 100 new = map (invocation_of h) (comms s)) /\
    ~ In 100%Z (keys (processes s')).
Proof.
  intros h s.
  assert (Hrel : reliable (comms s)).
  { intros c [<-|[<-|[]]] p t; reflexivity. }
  assert (Hin : In (100%Z, h) (stopped short_lived (S (clock s)) (processes s))).
  { simpl. left. reflexivity. }
  destruct (ended_process_notified_once
              short_lived substring_search healthy_env notify_both 0 100 h
              eq_refl Hrel Hin)
    as [s' [Hp [Hnew [Hnot _]]]].
  exists s'. auto.
Defined.

(** C3, as the spec has it, fails in two ways.  With discovery, an identity
    that a pass found ended, notified and removed is watched again when the
    PID has been given to a new process the patterns match: the first pass
    notifies about identity 7 and removes it, the second pass adds it
    again, and the third pass checks it again and notifies about it a second
    time.  And the call per module is not made when a [send] raises: PID 100
    has ended, the email module raised, and the desktop notification module
    was never called. *)
Lemma ended_identity_notified_again :
  (let r := run recycled substring_search healthy_env discover_and_notify in
   keys (processes (snd (r 0))) = [7%Z] /\
   map (fun i => pid (inv_process i)) (sent (snd (r 1))) = [7%Z] /\
   keys (processes (snd (r 1))) = [] /\
   keys (processes (snd (r 2))) = [7%Z] /\
   map (fun i => pid (inv_process i)) (sent (snd (r 3))) = [7%Z; 7%Z] /\
   fst (r 3) = Return tt) /\
  (let r := run short_lived substring_search broken_email_env notify_both 3 in
   keys (stopped short_lived 2 (processes (snd r))) = [100%Z] /\
   map (fun c => mod_name (fst c)) (comms (snd r)) = ["email"; "dbus_notify"] /\
   map inv_module (about 100 (sent (snd r))) = ["email"]).
Proof. vm_compute. repeat split. Qed.

(** ** Without patterns the run ends *)

Section NoPatterns.

Variable w : world.
Variable re_search : string -> string -> bool.
Variable env : environment.

Lemma load_comms_raises_inv (a : arguments) (s s' : state) (e : exn) :
  load_comms env a s = (Raise e, s') -> comms_fail env a /\ e = SystemExit 1.
Proof.
  unfold comms_fail, load_comms, load_email, load_dbus_notify, bind, log, modify,
    sys_exit, raise, ret.
  destruct (arg_to a) eqn:Eto; [|destruct (import_email env) eqn:Ee];
    destruct (arg_notify a) eqn:En;
    try destruct (import_dbus_notify env) eqn:Ed;
    try destruct (String.eqb _ _); simpl; intros H; inversion H; subst;
    (split; [|reflexivity]);
    try (right; split; [reflexivity|]; intros m'; congruence);
    left; (split; [congruence|]; intros m'; congruence).
Qed.

(** Once every entry has ended for good, a scan finds none running. *)
Lemma still_running_none (T t : nat) (d : dict) :
  (forall t' kv, T <= t' -> In kv d -> running_in (w t') (snd kv) = false) ->
  T <= t -> still_running w t d = [].
Proof.
  revert t. induction d as [|kv r IH]; intros t Hdead Ht; simpl; [reflexivity|].
  rewrite (Hdead t kv Ht) by now left.
  apply IH; [|lia]. intros t' kv' Ht' Hin. apply Hdead; [assumption|now right].
Qed.

(** Without discovery the loop ends within [fuel + 1] passes when its
    entries have all ended for good by instant [clock s + fuel]: with a
    [send] that raises, or else with [sys.exit()]. *)
Lemma loop_terminates (a : arguments) (T fuel : nat) (s : state) :
  watch_new a = false ->
  wf_dict (processes s) -> nothing_queued s ->
  (forall t kv, T <= t -> In kv (processes s) -> running_in (w t) (snd kv) = false) ->
  T <= clock s + fuel ->
  exists e, fst (loop w re_search a (S fuel) s) = Raise e /\
            (reliable (comms s) -> e = SystemExit 0).
Proof.
  intros Hwn. revert s. induction fuel as [|fuel IH]; intros s Hwf Htd Hdead HT.
  - destruct (poll_cases w a s (proj1 Hwf) Htd)
      as [[s1 [Hp [Hc [_ [Hproc _]]]]]|[c [p [t [s1 [Hin [Hd Hp]]]]]]].
    + rewrite (still_running_none T) in Hproc by (auto; lia).
      exists (SystemExit 0). split; [|reflexivity].
      simpl. unfold bind, tick, bind. rewrite Hp.
      unfold discover_or_exit. rewrite Hwn. unfold bind, gets.
      now rewrite Hproc.
    + exists (SendError (mod_name (fst c))). split.
      * now rewrite (loop_tick_raises _ _ _ _ _ _ _
                       (tick_poll_raises _ re_search _ _ _ _ Hp)).
      * intros Hrel. rewrite (Hrel c Hin p t) in Hd. discriminate.
  - destruct (poll_cases w a s (proj1 Hwf) Htd)
      as [[s1 [Hp [Hc [_ [Hproc [Htd1 [Hcs _]]]]]]]|[c [p [t [s1 [Hin [Hd Hp]]]]]]].
    + assert (Ht : tick w re_search a s
                   = match processes s1 with
                     | [] => (Raise (SystemExit 0), s1)
                     | _ :: _ => (Return tt, s1)
                     end).
      { unfold tick, bind. rewrite Hp. unfold discover_or_exit. rewrite Hwn.
        unfold bind, gets. now destruct (processes s1). }
      destruct (processes s1) as [|kv r] eqn:Ed.
      * exists (SystemExit 0). split; [|reflexivity].
        now rewrite (loop_tick_raises _ _ _ _ _ _ _ Ht).
      * destruct (IH s1) as [e [He Hrel]].
        -- rewrite Ed, Hproc. now apply still_running_wf.
        -- exact Htd1.
        -- intros t kv' Ht' Hin. apply Hdead; [assumption|].
           apply (still_running_incl w (S (clock s)) (processes s)).
           rewrite <- Hproc, <- Ed. exact Hin.
        -- lia.
        -- exists e. split.
           ++ change (loop w re_search a (S (S fuel)) s)
                with ((tick w re_search a ;; loop w re_search a (S fuel)) s).
              unfold bind. now rewrite Ht.
           ++ intros Hr. apply Hrel. now rewrite Hcs.
    + exists (SendError (mod_name (fst c))). split.
      * now rewrite (loop_tick_raises _ _ _ _ _ _ _
                       (tick_poll_raises _ re_search _ _ _ _ Hp)).
      * intros Hrel. rewrite (Hrel c Hin p t) in Hd. discriminate.
Qed.

(** Only the PIDs of the command line are watched when no pattern is
    given. *)
Lemma watch_pid_within (K : list Z) (p : Z) :
  In p K -> preserves (on_processes (fun d => incl (keys d) K)) (watch_pid w p).
Proof.
  intros Hp s H. rewrite watch_pid_eq. unfold on_processes in *.
  destruct (contains (processes s) p) eqn:Ec; [assumption|].
  destruct (lookup_pid p (w (clock s))); simpl; [|assumption].
  rewrite setitem_fresh by assumption. rewrite keys_app. simpl.
  apply incl_app; [assumption|]. intros x [<-|[]]. assumption.
Qed.

Lemma startup_within (a : arguments) :
  arg_command a = [] ->
  preserves (on_processes (fun d => incl (keys d) (arg_pid a)))
            (startup w re_search env a).
Proof.
  intros Hc. unfold startup, resolve, init_commands. rewrite Hc.
  pres.
  - apply load_comms_on_processes.
  - unfold init_pids. apply preserves_try_except.
    + apply preserves_for_each. intros p Hp.
      apply preserves_bind; [now apply watch_pid_within|intros _].
      apply preserves_ret.
    + intros e k Hk. destruct e; inversion Hk; subst.
      pres. intros f s H. exact H.
  - apply report_watching_on_processes.
Qed.

End NoPatterns.

(** ** The claim about --watch-new without patterns *)

Lemma exit_status_raise {A} (e : exn) : exit_status (@Raise A e) <> None.
Proof. destruct e; discriminate. Qed.

(** C10: --watch-new alone never enables discovery.  When no pattern is
    given the flag the script computes is off, whatever was asked.  Then a
    run without PIDs ends at once, before any pass (with status 0, or 1 when
    a requested module does not load); and a run whose PIDs have all ended
    for good by some instant ends after finitely many passes, with
    [sys.exit()] (status 0) when startup succeeded and no [send] raises. *)
Theorem watch_new_needs_patterns
        (w : world) (re_search : string -> string -> bool)
        (env : environment) (a : arguments) :
  arg_command a = [] ->
  watch_new a = false /\
  (arg_pid a = [] ->
   forall n,
     sleeps (snd (run w re_search env a n)) = 0 /\
     sent (snd (run w re_search env a n)) = [] /\
     (fst (run w re_search env a n) = Raise (SystemExit 0) \/
      comms_fail env a /\ fst (run w re_search env a n) = Raise (SystemExit 1))) /\
  (forall T,
      (forall t p, T <= t -> In p (arg_pid a) -> lookup_pid p (w t) = None) ->
      exists n,
        exit_status (fst (run w re_search env a n)) <> None /\
        (forall s1,
            startup w re_search env a initial_state = (Return tt, s1) ->
            reliable (comms s1) ->
            fst (run w re_search env a n) = Raise (SystemExit 0))).
Proof.
  intros Hc.
  assert (Hwn : watch_new a = false).
  { unfold watch_new. rewrite Hc. simpl. apply andb_false_r. }
  split; [exact Hwn|split].
  - intros Hp n.
    assert (Hsil : silent (snd (startup w re_search env a initial_state)))
      by (apply startup_silent; split; reflexivity).
    destruct (load_comms_cases env a initial_state)
      as [[s' Hl]|[s' [Hl [_ Hproc]]]].
    + destruct (load_comms_raises_inv env a _ _ _ Hl) as [Hfail _].
      assert (Hs : startup w re_search env a initial_state
                   = (Raise (SystemExit 1), s')).
      { apply startup_resolve_raises. unfold resolve, bind. now rewrite Hl. }
      unfold run. rewrite (main_startup_raises _ _ _ _ n _ _ _ Hs).
      rewrite Hs in Hsil. destruct Hsil. simpl. auto.
    + assert (Hr : resolve w re_search env a initial_state = (Return tt, s')).
      { unfold resolve, bind. rewrite Hl.
        unfold init_pids, init_commands, try_except. rewrite Hp, Hc.
        reflexivity. }
      destruct (empty_watch_set_exits w re_search env a n s' Hr Hproc Hwn)
        as [He [Hsl Hse]].
      auto.
  - intros T Hgone.
    destruct (startup w re_search env a initial_state) as [[[]|e] s1] eqn:Es.
    + pose proof (startup_on_processes w re_search env wf_dict (watch_pid_wf w)
                                       a initial_state wf_dict_nil) as Hwf.
      pose proof (startup_nothing_queued w re_search env a initial_state eq_refl)
        as Htd.
      pose proof (startup_within w re_search env a Hc initial_state) as Hin.
      rewrite Es in Hwf, Htd, Hin. unfold on_processes in Hwf, Hin.
      simpl in Hwf, Htd, Hin.
      specialize (Hin (fun x H => match H with end)).
      destruct (loop_terminates w re_search a T T s1 Hwn Hwf Htd)
        as [e [He Hrel]].
      * intros t [k h] Ht Hk. simpl. unfold running_in.
        rewrite (proj2 Hwf k h Hk).
        rewrite (Hgone t k Ht); [reflexivity|].
        apply Hin. unfold keys. apply in_map_iff. now exists (k, h).
      * lia.
      * exists (S T). unfold run, main, bind. rewrite Es.
        destruct (loop w re_search a (S T) s1) as [r s2]. simpl in *. subst r.
        split; [apply exit_status_raise|].
        intros s1' Heq Hr. inversion Heq; subst. now rewrite (Hrel Hr).
    + exists 0. unfold run. rewrite (main_startup_raises _ _ _ _ 0 _ _ _ Es).
      cbn [fst]. split; [apply exit_status_raise|]. intros s1' Heq. discriminate.
Qed.

Lemma watch_new_needs_patterns_witness :
  arg_command (mkArgs [100%Z] [] true [] false false) = [] /\
  watch_new (mkArgs [100%Z] [] true [] false false) = false /\
  exists n,
    fst (run short_lived substring_search healthy_env
             (mkArgs [100%Z] [] true [] false false) n)
    = Raise (SystemExit 0).
Proof.
  destruct (watch_new_needs_patterns
              short_lived substring_search healthy_env
              (mkArgs [100%Z] [] true [] false false) eq_refl)
    as [Hwn [_ Hend]].
  split; [reflexivity|]. split; [exact Hwn|].
  destruct (Hend 1) as [n [_ Hok]].
  - intros t p Ht [<-|[]]. destruct t; [lia|reflexivity].
  - exists n. apply (Hok _ eq_refl). intros c [].
Defined.

(** * Further properties of the script *)

(** ** How a run can end *)

Section Endings.

Variable w : world.
Variable re_search : string -> string -> bool.
Variable env : environment.






End Endings.



(** ** Loading the modules and calling them *)

Section Loading.

Variable w : world.
Variable re_search : string -> string -> bool.
Variable env : environment.

(** What is left of the script once the modules are loaded. *)
Let rest (a : arguments) (n : nat) : M unit :=
  ((init_pids w a ;; init_commands w re_search a) ;; report_watching a) ;;
  loop w re_search a n.

Lemma main_after_load (a : arguments) (n : nat) (s s' : state) :
  load_comms env a s = (Return tt, s') ->
  main w re_search env a n s = rest a n s'.
Proof.
  intros H. unfold main, startup, resolve, rest, bind. now rewrite H.
Qed.

Lemma main_load_raises (a : arguments) (n : nat) (s s' : state) (e : exn) :
  load_comms env a s = (Raise e, s') ->
  main w re_search env a n s = (Raise e, s').
Proof.
  intros H. unfold main, startup, resolve, bind. now rewrite H.
Qed.

(** Loading either stops the run with one record on stderr, or returns with
    the requested modules in [comms] and nothing else touched. *)
Lemma load_comms_outcome (a : arguments) :
  (exists s',
      load_comms env a initial_state = (Raise (SystemExit 1), s') /\
      comms_fail env a /\ (exists l, stderr s' = [l]) /\
      stdout s' = [] /\ processes s' = [] /\ sleeps s' = 0 /\ clock s' = 0) \/
  (exists s',
      load_comms env a initial_state = (Return tt, s') /\
      ~ comms_fail env a /\ stderr s' = [] /\
      comms s' = requested_comms env a /\
      stdout s' = [] /\ processes s' = [] /\ sleeps s' = 0 /\ clock s' = 0 /\
      sent s' = [] /\ to_delete s' = []).
Proof.
  unfold comms_fail, requested_comms, load_comms, load_email, load_dbus_notify,
    bind, log, modify, sys_exit, raise, ret.
  destruct (arg_to a) eqn:Eto; [|destruct (import_email env) eqn:Ee];
    destruct (arg_notify a) eqn:En;
    try destruct (import_dbus_notify env) eqn:Ed;
    try destruct (String.eqb _ _); simpl;
    try (left; eexists; split; [reflexivity|]; simpl;
         split; [|repeat split; eauto];
         first [ right; split; [reflexivity|]; intros m'; congruence
               | left; split; [congruence|]; intros m'; congruence ]);
    right; eexists; (split; [reflexivity|]); simpl;
    (split; [|repeat split; reflexivity]);
    intros [[H1 H2]|[H1 H2]]; try congruence;
    try (eapply H2; reflexivity).
Qed.

Ltac frame P := pres; try (unfold P; simpl; intros; assumption).

Let no_record (s : state) : Prop := stderr s = [].

Lemma rest_logs_nothing (a : arguments) (n : nat) :
  preserves no_record (rest a n).
Proof.
  unfold rest. repeat (apply preserves_bind; [|intros _]).
  - unfold init_pids, watch_pid. apply preserves_try_except; [frame no_record|].
    intros e k Hk. destruct e; inversion Hk; subst. frame no_record.
  - unfold init_commands, watch_pid. frame no_record.
  - unfold report_watching. frame no_record.
  - induction n as [|n IH]; simpl; [apply preserves_ret|].
    apply preserves_bind; [|intros _; exact IH].
    unfold tick, poll, scan, scan_item, notify, removals, discover_or_exit,
      discover, watch_pid.
    frame no_record.
    intros s H. unfold del_process. now destruct (delitem (processes s) x).
Qed.

Let same_comms (cs : list comm) (s : state) : Prop := comms s = cs.

Lemma rest_keeps_comms (a : arguments) (n : nat) (cs : list comm) :
  preserves (same_comms cs) (rest a n).
Proof.
  unfold rest. repeat (apply preserves_bind; [|intros _]).
  - unfold init_pids, watch_pid.
    apply preserves_try_except; [frame same_comms|].
    intros e k Hk. destruct e; inversion Hk; subst. frame same_comms.
  - unfold init_commands, watch_pid. frame same_comms.
  - unfold report_watching. frame same_comms.
  - induction n as [|n IH]; simpl; [apply preserves_ret|].
    apply preserves_bind; [|intros _; exact IH].
    unfold tick, poll, scan, scan_item, notify, removals, discover_or_exit,
      discover, watch_pid.
    frame same_comms.
    intros s H. unfold del_process. now destruct (delitem (processes s) x).
Qed.

Lemma send_calls_within (cs : list comm) (p : ProcessByPID) (c : comm) :
  In c cs -> preserves (calls_within cs) (send p c).
Proof.
  intros Hc s [Hincl Hsent]. unfold send.
  assert (H : forall i, In i (sent s ++ [invocation_of p c]) ->
                        exists c', In c' cs /\ i = invocation_of (inv_process i) c').
  { intros i Hi. apply in_app_or in Hi. destruct Hi as [Hi|[<-|[]]].
    - now apply Hsent.
    - exists c. split; [assumption|reflexivity]. }
  destruct (mod_send (fst c) (snd c) p (clock s)); simpl; (split; assumption).
Qed.

Lemma notify_calls_within (cs : list comm) (p : ProcessByPID) :
  preserves (calls_within cs) (notify p).
Proof.
  intros s H. unfold notify, bind, gets.
  apply (preserves_for_each (calls_within cs) (comms s) (send p)); [|exact H].
  intros c Hc. apply send_calls_within. now apply (proj1 H).
Qed.

Lemma rest_calls_within (a : arguments) (n : nat) (cs : list comm) :
  preserves (calls_within cs) (rest a n).
Proof.
  unfold rest. repeat (apply preserves_bind; [|intros _]).
  - unfold init_pids, watch_pid.
    apply preserves_try_except; [frame calls_within|].
    intros e k Hk. destruct e; inversion Hk; subst. frame calls_within.
  - unfold init_commands, watch_pid. frame calls_within.
  - unfold report_watching. frame calls_within.
  - induction n as [|n IH]; simpl; [apply preserves_ret|].
    apply preserves_bind; [|intros _; exact IH].
    unfold tick, poll, scan, scan_item, removals, discover_or_exit,
      discover, watch_pid.
    repeat first [apply notify_calls_within | pres_step];
      try (unfold calls_within; simpl; intros; assumption).
    intros s H. unfold del_process. now destruct (delitem (processes s) x).
Qed.

End Loading.

(** X2: the [logging] module is used for one thing only, a requested module
    that does not load.  In any run stderr is empty unless a module failed to
    load; then it holds exactly one record, nothing was printed to stdout, no
    process was looked up, no pass began, and the run ended with
    [sys.exit(1)]. *)
Theorem logging_only_on_load_failure
        (w : world) (re_search : string -> string -> bool)
        (env : environment) (a : arguments) (n : nat) :
  let s := snd (run w re_search env a n) in
  (~ comms_fail env a /\ stderr s = []) \/
  (comms_fail env a /\ (exists l, stderr s = [l]) /\
   stdout s = [] /\ processes s = [] /\ sleeps s = 0 /\ clock s = 0 /\
   fst (run w re_search env a n) = Raise (SystemExit 1)).
Proof.
  intros s. subst s. unfold run.
  destruct (load_comms_outcome env a)
    as [[s' [Hl [Hf [Hlog [Ho [Hp [Hs Hc]]]]]]]|[s' [Hl [Hf [Hlog _]]]]].
  - right. rewrite (main_load_raises w re_search env a n _ _ _ Hl). simpl.
    repeat split; assumption.
  - left. split; [exact Hf|].
    rewrite (main_after_load w re_search env a n _ _ Hl).
    now apply rest_logs_nothing.
Qed.

(** Every call of a run went to a requested module, and [comms] is the list
    of the requested modules while the run goes on. *)
Lemma run_calls_within
      (w : world) (re_search : string -> string -> bool)
      (env : environment) (a : arguments) (n : nat) :
  calls_within (requested_comms env a) (snd (run w re_search env a n)) /\
  (fst (run w re_search env a n) = Return tt ->
   comms (snd (run w re_search env a n)) = requested_comms env a).
Proof.
  unfold run.
  destruct (load_comms_outcome env a)
    as [[s' [Hl [_ [_ [_ [_ _]]]]]]
       |[s' [Hl [_ [_ [Hcs [_ [_ [_ [_ [Hsent _]]]]]]]]]]].
  - rewrite (main_load_raises w re_search env a n _ _ _ Hl). simpl.
    split; [|discriminate].
    (* the state of a failed load calls nothing *)
    revert Hl. unfold requested_comms, load_comms, load_email,
      load_dbus_notify, bind, log, modify, sys_exit, raise, ret.
    destruct (arg_to a) eqn:Eto; [|destruct (import_email env) eqn:Ee];
      destruct (arg_notify a) eqn:En;
      try destruct (import_dbus_notify env) eqn:Ed;
      try destruct (String.eqb _ _); simpl; intros Hl; inversion Hl; subst;
      (split; simpl; [|intros i []]);
      solve [ apply incl_refl
            | intros x []
            | intros x [<-|[]]; simpl; auto ].
  - rewrite (main_after_load w re_search env a n _ _ Hl). split.
    + apply rest_calls_within. split.
      * rewrite Hcs. apply incl_refl.
      * rewrite Hsent. intros i [].
    + intros _. now apply rest_keeps_comms.
Qed.

(** X3: only the modules the command line asked for are ever called, each
    with the keyword arguments fixed at startup: every call of every run
    goes to an entry of [requested_comms]; while the run goes on [comms] is
    exactly that list (email first, then the desktop notification); and
    without --to and --notify nothing is ever sent. *)
Theorem calls_go_to_requested_modules
        (w : world) (re_search : string -> string -> bool)
        (env : environment) (a : arguments) (n : nat) :
  let s := snd (run w re_search env a n) in
  (forall i, In i (sent s) ->
             exists c, In c (requested_comms env a) /\
                       i = invocation_of (inv_process i) c) /\
  (fst (run w re_search env a n) = Return tt ->
   comms s = requested_comms env a) /\
  (arg_to a = [] -> arg_notify a = false -> sent s = []).
Proof.
  intros s.
  destruct (run_calls_within w re_search env a n) as [[Hincl Hsent] Hcomms].
  fold s in Hincl, Hsent, Hcomms.
  split; [exact Hsent|split; [exact Hcomms|]].
  intros Hto Hn.
  assert (Hr : requested_comms env a = []).
  { unfold requested_comms. now rewrite Hto, Hn. }
  destruct (sent s) as [|i l] eqn:Es; [reflexivity|].
  destruct (Hsent i (or_introl eq_refl)) as [c [Hc _]].
  rewrite Hr in Hc. contradiction.
Qed.

Lemma calls_go_to_requested_modules_witness :
  arg_to watch_100 = [] /\ arg_notify watch_100 = false /\
  sent (snd (run short_lived substring_search healthy_env watch_100 4)) = [].
Proof.
  split; [reflexivity|]. split; [reflexivity|].
  exact (proj2 (proj2 (calls_go_to_requested_modules
                         short_lived substring_search healthy_env watch_100 4))
               eq_refl eq_refl).
Defined.

(** ** What startup prints *)

Lemma with_stdout_nil (s : state) : with_stdout (fun o => o ++ []) s = s.
Proof. destruct s. unfold with_stdout. simpl. now rewrite app_nil_r. Qed.

Lemma with_stdout_app (x y : list printed) (s : state) :
  with_stdout (fun o => o ++ y) (with_stdout (fun o => o ++ x) s)
  = with_stdout (fun o => o ++ (x ++ y)) s.
Proof. unfold with_stdout. simpl. now rewrite app_assoc. Qed.

(** Lines 110-111 without -q. *)
Lemma for_each_print_info (d : dict) (s : state) :
  for_each d (fun kv => print false (PrInfo (snd kv))) s
  = (Return tt, with_stdout (fun o => o ++ map (fun kv => PrInfo (snd kv)) d) s).
Proof.
  revert s. induction d as [|kv r IH]; intros s; simpl.
  - unfold ret. now rewrite with_stdout_nil.
  - unfold bind, print, modify. rewrite IH.
    now rewrite (with_stdout_app [PrInfo (snd kv)]).
Qed.

Section StartupOutput.

Variable w : world.
Variable re_search : string -> string -> bool.
Variable env : environment.

Let nothing_printed (s : state) : Prop := stdout s = [].

Ltac frame := pres; try (unfold nothing_printed; simpl; intros; assumption).

(** The handler of lines 91-93 never returns. *)
Lemma init_pids_returns_inv (a : arguments) (s s' : state) :
  init_pids w a s = (Return tt, s') ->
  for_each (arg_pid a) (fun p => watch_pid w p ;; ret tt) s = (Return tt, s').
Proof.
  unfold init_pids, try_except.
  destruct (for_each (arg_pid a) (fun p => watch_pid w p ;; ret tt) s)
    as [[[]|e] s1]; [auto|].
  destruct e; try discriminate.
  unfold bind, print, sys_exit, raise, modify, ret.
  destruct (arg_quiet a); discriminate.
Qed.

Lemma for_each_watch_prints_nothing (l : list Z) :
  preserves nothing_printed (for_each l (fun p => watch_pid w p ;; ret tt)).
Proof. unfold watch_pid. frame. Qed.

(** A resolution that returns has printed nothing. *)
Lemma resolve_prints_nothing (a : arguments) (s0 : state) :
  resolve w re_search env a initial_state = (Return tt, s0) -> stdout s0 = [].
Proof.
  intros H. unfold resolve in H. unfold bind at 1 in H.
  destruct (load_comms_outcome env a)
    as [[s' [Hl _]]|[s' [Hl [_ [_ [_ [Ho _]]]]]]]; rewrite Hl in H;
    [discriminate|].
  unfold bind in H.
  destruct (init_pids w a s') as [[[]|e] s1] eqn:Ei; [|discriminate].
  apply init_pids_returns_inv in Ei.
  assert (H1 : nothing_printed s1).
  { pose proof (for_each_watch_prints_nothing (arg_pid a) s' Ho) as Hp.
    now rewrite Ei in Hp. }
  assert (Hc : preserves nothing_printed (init_commands w re_search a)).
  { unfold init_commands, watch_pid. frame. }
  specialize (Hc s1 H1). now rewrite H in Hc.
Qed.

End StartupOutput.

(** X4: without -q, what startup leaves on stdout is its report and nothing
    else.  When the resolution returns, either nothing is watched and
    nothing will be discovered, and the one line is 'No processes found to
    watch.'; or the output is 'Watching N processes:' with N the size of the
    watch set, followed by the info of every watched process in the order of
    the dict. *)
Theorem startup_report
        (w : world) (re_search : string -> string -> bool)
        (env : environment) (a : arguments) (s0 : state) :
  arg_quiet a = false ->
  resolve w re_search env a initial_state = (Return tt, s0) ->
  stdout (snd (startup w re_search env a initial_state))
  = match processes s0, watch_new a with
    | [], false => [PrNoProcessesFound]
    | d, _ => PrWatching (List.length d) :: map (fun kv => PrInfo (snd kv)) d
    end.
Proof.
  intros Hq Hr.
  pose proof (resolve_prints_nothing w re_search env a s0 Hr) as Ho.
  unfold startup. unfold bind at 1. rewrite Hr.
  unfold report_watching, bind, gets. rewrite Hq.
  destruct (processes s0) as [|kv d] eqn:Ed.
  - destruct (watch_new a); simpl; now rewrite Ho.
  - unfold ret, print, modify. rewrite for_each_print_info. simpl.
    now rewrite Ho.
Qed.

Lemma startup_report_witness :
  stdout (snd (startup short_lived substring_search healthy_env watch_100
                       initial_state))
  = [PrWatching 1; PrInfo (mkProcessByPID 100 "sleep 60" "sleep" 5)].
Proof.
  exact (startup_report short_lived substring_search healthy_env watch_100
                        _ eq_refl eq_refl).
Defined.

(** ** Walking through identities that all run *)

Section WatchFound.

Variable w : world.

(** When every identity of the list holds a process while the list is
    walked, the walk returns; it keeps the entries it found and appends one
    entry for each identity that was not watched. *)
Lemma for_each_watch_found (k : option ProcessByPID -> M unit)
      (l : list Z) (s : state) :
  harmless k ->
  (forall q t, In q l -> clock s <= t < clock s + List.length l ->
               lookup_pid q (w t) <> None) ->
  exists s' added,
    for_each l (fun p => h <- watch_pid w p ;; k h) s = (Return tt, s') /\
    clock s <= clock s' <= clock s + List.length l /\
    processes s' = processes s ++ added /\
    forall q, In q (keys added) <-> In q l /\ ~ In q (keys (processes s)).
Proof.
  intros Hk. revert s. induction l as [|x r IH]; intros s Hrun.
  - exists s, []. simpl. rewrite app_nil_r. repeat split; try lia; tauto.
  - simpl. unfold bind at 1. unfold bind at 1. rewrite watch_pid_eq.
    destruct (contains (processes s) x) eqn:Ec.
    + destruct (Hk None s) as [s1 [-> [Hc1 Hp1]]].
      destruct (IH s1) as [s' [added [Hf [Hc [Hp Hkeys]]]]].
      { intros q t Hq Ht. apply Hrun; [now right|]. simpl. lia. }
      exists s', added. rewrite Hf. rewrite Hc1, Hp1 in *.
      split; [reflexivity|]. split; [simpl; lia|]. split; [exact Hp|].
      intros q. rewrite Hkeys. apply contains_true in Ec. simpl.
      split; [tauto|]. intros [[<-|Hq] Hn]; tauto.
    + destruct (lookup_pid x (w (clock s))) as [o|] eqn:El.
      * destruct (Hk (Some (capture x o))
                     (with_processes (fun d => setitem d x (capture x o))
                                     (with_clock S s)))
          as [s1 [-> [Hc1 Hp1]]].
        simpl in Hc1, Hp1. rewrite setitem_fresh in Hp1 by assumption.
        destruct (IH s1) as [s' [added [Hf [Hc [Hp Hkeys]]]]].
        { intros q t Hq Ht. apply Hrun; [now right|]. simpl. lia. }
        exists s', ((x, capture x o) :: added). rewrite Hf.
        rewrite Hc1, Hp1 in *.
        split; [reflexivity|]. split; [simpl; lia|].
        split; [now rewrite Hp, <- app_assoc|].
        intros q. simpl. rewrite Hkeys, keys_app, in_app_iff. simpl.
        apply contains_false in Ec.
        destruct (Z.eq_dec x q) as [<-|Hne]; [tauto|]. tauto.
      * exfalso. apply (Hrun x (clock s)); [now left| simpl; lia |exact El].
Qed.

End WatchFound.

(** ** The PID that is reported missing *)

(** X5: when a PID of the command line holds no process, the one named on
    stdout is the first such PID in the order of the command line: the PIDs
    before it are watched by then, the ones after it were never looked up,
    and the run ends with [sys.exit(1)] before any pass.  (The process table
    is taken not to change while the PIDs are resolved.) *)
Theorem first_missing_pid_is_reported
        (w : world) (re_search : string -> string -> bool)
        (env : environment) (a : arguments) (n : nat)
        (tbl : process_table) (pre post : list Z) (p : Z) :
  ~ comms_fail env a ->
  arg_quiet a = false ->
  arg_pid a = pre ++ p :: post ->
  (forall t, t < List.length (arg_pid a) -> w t = tbl) ->
  (forall q, In q pre -> lookup_pid q tbl <> None) ->
  lookup_pid p tbl = None ->
  let r := run w re_search env a n in
  fst r = Raise (SystemExit 1) /\
  stdout (snd r) = [PrNoProcessWithPID p] /\
  (forall q, In q (keys (processes (snd r))) <-> In q pre) /\
  clock (snd r) <= S (List.length pre) /\
  sleeps (snd r) = 0.
Proof.
  intros Hload Hq Hpid Hw Hpre Hp r. subst r. unfold run.
  destruct (load_comms_outcome env a)
    as [[s' [_ [Hf _]]]
       |[s0 [Hl [_ [_ [_ [Ho [Hd [Hsl [Hc _]]]]]]]]]]; [contradiction|].
  assert (Hlen : List.length (arg_pid a) = List.length pre + S (List.length post)).
  { rewrite Hpid, length_app. reflexivity. }
  destruct (for_each_watch_found w (fun _ => ret tt) pre s0 harmless_ret)
    as [s1 [added [Hf [Hc1 [Hp1 Hkeys]]]]].
  { intros q t Hin Ht. rewrite Hw by lia. now apply Hpre. }
  rewrite Hd in Hp1, Hkeys. simpl in Hp1, Hkeys.
  assert (Ho1 : stdout s1 = []).
  { pose proof (for_each_watch_prints_nothing w pre s0 Ho) as H.
    now rewrite Hf in H. }
  assert (Hsl1 : sleeps s1 = 0).
  { assert (H : preserves (fun s => sleeps s = 0)
                          (for_each pre (fun p => watch_pid w p ;; ret tt))).
    { unfold watch_pid. pres; simpl; intros; assumption. }
    specialize (H s0 Hsl). now rewrite Hf in H. }
  assert (Hnot : ~ In p (keys (processes s1))).
  { rewrite Hp1. intros Hin. apply Hkeys in Hin. destruct Hin as [Hin _].
    now apply (Hpre p Hin). }
  assert (Hbody : (watch_pid w p ;; ret tt) s1
                  = (Raise (NoProcessFound p), with_clock S s1)).
  { unfold bind. rewrite watch_pid_eq.
    apply contains_false in Hnot. rewrite Hnot.
    rewrite Hw by lia. now rewrite Hp. }
  assert (Hinit : init_pids w a s0
                  = (Raise (SystemExit 1),
                     with_stdout (fun o => o ++ [PrNoProcessWithPID p])
                                 (with_clock S s1))).
  { unfold init_pids, try_except. rewrite Hpid.
    rewrite (for_each_raises pre post p _ s0 s1 _ _ Hf Hbody).
    unfold bind, print. rewrite Hq. reflexivity. }
  assert (Hs : startup w re_search env a initial_state
               = (Raise (SystemExit 1),
                  with_stdout (fun o => o ++ [PrNoProcessWithPID p])
                              (with_clock S s1))).
  { apply startup_resolve_raises. unfold resolve, bind. rewrite Hl.
    now rewrite Hinit. }
  rewrite (main_startup_raises _ _ _ _ n _ _ _ Hs). simpl.
  rewrite Ho1, Hp1. repeat split; try assumption; try lia.
  - intros Hin. now apply Hkeys in Hin.
  - intros Hin. apply Hkeys. tauto.
Qed.

Lemma first_missing_pid_is_reported_witness :
  stdout (snd (run (fun _ => [mkOsProcess 100 "sleep 60" "sleep" 5])
                   substring_search healthy_env
                   (mkArgs [200%Z; 100%Z] [] false [] false false) 2))
  = [PrNoProcessWithPID 200].
Proof.
  assert (Hload : ~ comms_fail healthy_env
                    (mkArgs [200%Z; 100%Z] [] false [] false false)).
  { intros [[H _]|[H _]]; [now apply H|discriminate]. }
  refine (proj1 (proj2 (first_missing_pid_is_reported
                          (fun _ => [mkOsProcess 100 "sleep 60" "sleep" 5])
                          substring_search healthy_env
                          (mkArgs [200%Z; 100%Z] [] false [] false false) 2
                          [mkOsProcess 100 "sleep 60" "sleep" 5] [] [100%Z] 200
                          Hload eq_refl eq_refl (fun _ _ => eq_refl)
                          (fun q (H : In q []) => match H with end) eq_refl))).
Defined.

(** ** Discovery *)

Section Discovery.

Variable w : world.
Variable re_search : string -> string -> bool.

(** Discovery sends nothing, queues nothing, does not sleep and leaves
    [comms] alone. *)
Lemma discover_frame (a : arguments) (s : state) :
  let s' := snd (discover w re_search a s) in
  sent s' = sent s /\ to_delete s' = to_delete s /\
  sleeps s' = sleeps s /\ comms s' = comms s.
Proof.
  assert (H : preserves (fun x => sent x = sent s /\ to_delete x = to_delete s /\
                                  sleeps x = sleeps s /\ comms x = comms s)
                        (discover w re_search a)).
  { unfold discover, watch_pid. pres; simpl; intros; assumption. }
  apply H. auto.
Qed.

End Discovery.

(** X6: in a pass with discovery on, when every process the patterns match
    keeps running while the matches are walked through, the pass returns
    and each matched identity is in the watch set afterwards: the entries
    that were watched are kept as they are, in place, and one entry is
    appended for each match that was not watched.  Discovery itself calls no
    module: only an ended process is notified. *)
Theorem discovery_watches_matches
        (w : world) (re_search : string -> string -> bool)
        (a : arguments) (s s0 : state) :
  watch_new a = true ->
  poll w a s = (Return tt, s0) ->
  (forall q t,
      In q (matching re_search (arg_command a) (w (clock s0))) ->
      clock s0 < t <= clock s0
                      + List.length (matching re_search (arg_command a) (w (clock s0))) ->
      lookup_pid q (w t) <> None) ->
  exists s' added,
    tick w re_search a s = (Return tt, s') /\
    processes s' = processes s0 ++ added /\
    (forall q, In q (keys added) <->
               In q (matching re_search (arg_command a) (w (clock s0)))
               /\ ~ In q (keys (processes s0))) /\
    (forall q, In q (matching re_search (arg_command a) (w (clock s0))) ->
               In q (keys (processes s'))) /\
    sent s' = sent s0 /\ to_delete s' = to_delete s0.
Proof.
  intros Hwn Hp Hrun.
  set (found := matching re_search (arg_command a) (w (clock s0))) in *.
  destruct (for_each_watch_found
              w (fun h => match h with
                          | Some h => print (arg_quiet a) (PrInfo h)
                          | None => ret tt
                          end)
              found (with_clock S s0) (harmless_print_info (arg_quiet a)))
    as [s' [added [Hf [_ [Hproc Hkeys]]]]].
  { simpl. intros q t Hq Ht. apply Hrun; [exact Hq|lia]. }
  assert (Hd : discover w re_search a s0 = (Return tt, s')).
  { unfold discover. unfold bind at 1. unfold pids_with_command_name.
    exact Hf. }
  assert (Ht : tick w re_search a s = (Return tt, s')).
  { unfold tick, bind. rewrite Hp. unfold discover_or_exit. now rewrite Hwn. }
  exists s', added. simpl in Hproc, Hkeys.
  split; [exact Ht|]. split; [exact Hproc|]. split; [exact Hkeys|].
  pose proof (discover_frame w re_search a s0) as Hfr. rewrite Hd in Hfr.
  simpl in Hfr. destruct Hfr as [Hsent [Htd _]].
  split; [|split; assumption].
  intros q Hq. rewrite Hproc, keys_app, in_app_iff.
  destruct (in_dec Z.eq_dec q (keys (processes s0))) as [Hin|Hnin];
    [now left|right]. apply Hkeys. tauto.
Qed.

Lemma discovery_watches_matches_witness :
  let s := snd (run recycled substring_search healthy_env discover_and_notify 1) in
  exists s',
    tick recycled substring_search discover_and_notify s = (Return tt, s') /\
    In 7%Z (keys (processes s')).
Proof.
  intros s.
  destruct (discovery_watches_matches
              recycled substring_search discover_and_notify s
              (snd (poll recycled discover_and_notify s)) eq_refl eq_refl)
    as [s' [added [Ht [_ [_ [Hin _]]]]]].
  - simpl. intros q t [<-|[]] Ht. assert (t = 7) by lia. subst t. discriminate.
  - exists s'. split; [exact Ht|]. apply Hin. simpl. auto.
Defined.

(** ** PIDs given more than once *)

Section RepeatedPids.

Variable w : world.

Let body (p : Z) : M unit := watch_pid w p ;; ret tt.

Lemma body_watched (x : Z) (s : state) :
  In x (keys (processes s)) -> body x s = (Return tt, s).
Proof.
  intros H. unfold body, bind. rewrite watch_pid_eq.
  apply contains_true in H. now rewrite H.
Qed.

(** A guarded assignment that returns leaves its identity watched, and
    takes no identity away. *)
Lemma body_returns (y : Z) (s s1 : state) :
  body y s = (Return tt, s1) ->
  In y (keys (processes s1)) /\
  forall x, In x (keys (processes s)) -> In x (keys (processes s1)).
Proof.
  unfold body, bind. rewrite watch_pid_eq.
  destruct (contains (processes s) y) eqn:Ec.
  - intros H. inversion H; subst. apply contains_true in Ec. auto.
  - destruct (lookup_pid y (w (clock s))); [|discriminate].
    intros H. inversion H; subst. simpl.
    rewrite setitem_fresh by assumption. rewrite keys_app. simpl.
    split; [|intros x Hx]; rewrite in_app_iff; simpl; auto.
Qed.

Lemma for_each_skip_watched (x : Z) (l : list Z) (s : state) :
  In x (keys (processes s)) ->
  for_each l body s = for_each (filter (fun y => negb (Z.eqb y x)) l) body s.
Proof.
  revert s. induction l as [|y r IH]; intros s Hx; [reflexivity|].
  simpl. destruct (Z.eqb y x) eqn:E; simpl.
  - apply Z.eqb_eq in E. subst y. unfold bind at 1.
    rewrite (body_watched x s Hx). now apply IH.
  - unfold bind. destruct (body y s) as [[[]|e] s1] eqn:Eb; [|reflexivity].
    apply IH. now apply (proj2 (body_returns y s s1 Eb)).
Qed.

Lemma for_each_first_occurrences (l : list Z) (s : state) :
  for_each l body s = for_each (first_occurrences l) body s.
Proof.
  revert s. induction l as [|x r IH]; intros s; [reflexivity|].
  simpl. unfold bind. destruct (body x s) as [[[]|e] s1] eqn:Eb; [|reflexivity].
  rewrite IH. apply for_each_skip_watched.
  exact (proj1 (body_returns x s s1 Eb)).
Qed.

Lemma init_pids_first_occurrences (a : arguments) (s : state) :
  init_pids w (set_pid (first_occurrences (arg_pid a)) a) s = init_pids w a s.
Proof.
  unfold init_pids, try_except. simpl.
  fold body. now rewrite <- for_each_first_occurrences.
Qed.

End RepeatedPids.

Lemma loop_set_pid (w : world) (re_search : string -> string -> bool)
      (l : list Z) (a : arguments) (n : nat) (s : state) :
  loop w re_search (set_pid l a) n s = loop w re_search a n s.
Proof.
  revert s. induction n as [|n IH]; intros s; [reflexivity|].
  simpl. unfold bind.
  change (tick w re_search (set_pid l a) s) with (tick w re_search a s).
  destruct (tick w re_search a s) as [[[]|e] s1]; [apply IH|reflexivity].
Qed.

(** X7: giving a PID more than once on the command line changes nothing at
    all: the run is, result and state, the run of the command line on which
    every PID is kept once, at its first place. *)
Theorem repeated_pids_change_nothing
        (w : world) (re_search : string -> string -> bool)
        (env : environment) (a : arguments) (n : nat) :
  run w re_search env (set_pid (first_occurrences (arg_pid a)) a) n
  = run w re_search env a n.
Proof.
  unfold run, main, startup, resolve.
  change (load_comms env (set_pid (first_occurrences (arg_pid a)) a))
    with (load_comms env a).
  change (init_commands w re_search (set_pid (first_occurrences (arg_pid a)) a))
    with (init_commands w re_search a).
  change (report_watching (set_pid (first_occurrences (arg_pid a)) a))
    with (report_watching a).
  unfold bind.
  destruct (load_comms env a initial_state) as [[[]|e] s0]; [|reflexivity].
  rewrite init_pids_first_occurrences.
  destruct (init_pids w a s0) as [[[]|e] s1]; [|reflexivity].
  destruct (init_commands w re_search a s1) as [[[]|e] s2]; [|reflexivity].
  destruct (report_watching a s2) as [[[]|e] s3]; [|reflexivity].
  apply loop_set_pid.
Qed.

(** ** Every watched process is notified once *)

Section Accounting.

Variable w : world.
Variable re_search : string -> string -> bool.

Lemma notifications_app (cs : list comm) (d1 d2 : dict) :
  notifications cs (d1 ++ d2) = notifications cs d1 ++ notifications cs d2.
Proof. apply flat_map_app. Qed.

(** The calls for a watch set are the calls for its ended entries and the
    calls for its running entries. *)
Lemma notifications_split (cs : list comm) (t : nat) (d : dict) :
  Permutation (notifications cs d)
              (notifications cs (stopped w t d)
               ++ notifications cs (still_running w t d)).
Proof.
  revert t. induction d as [|kv r IH]; intros t; simpl; [constructor|].
  destruct (running_in (w t) (snd kv)); simpl.
  - rewrite (IH (S t)) at 1.
    rewrite !app_assoc. apply Permutation_app_tail, Permutation_app_comm.
  - rewrite <- app_assoc. apply Permutation_app_head, IH.
Qed.

(** Without discovery, a loop that leaves through [sys.exit()] has sent, on
    top of what was sent before, the calls for the entries it started
    with. *)
Lemma loop_accounting (a : arguments) (n : nat) (s s' : state) :
  watch_new a = false ->
  wf_dict (processes s) -> nothing_queued s ->
  loop w re_search a n s = (Raise (SystemExit 0), s') ->
  Permutation (sent s') (sent s ++ notifications (comms s) (processes s))
  /\ processes s' = [].
Proof.
  intros Hwn. revert s. induction n as [|n IH]; intros s Hwf Htd Hl;
    [discriminate|].
  simpl in Hl. unfold bind in Hl.
  destruct (poll_cases w a s (proj1 Hwf) Htd)
    as [[s1 [Hp [_ [_ [Hproc [Htd1 [Hcs Hsent]]]]]]]
       |[c [p [t [s1 [_ [_ Hp]]]]]]].
  - assert (Ht : tick w re_search a s
                 = match processes s1 with
                   | [] => (Raise (SystemExit 0), s1)
                   | _ :: _ => (Return tt, s1)
                   end).
    { unfold tick, bind. rewrite Hp. unfold discover_or_exit. rewrite Hwn.
      unfold bind, gets. now destruct (processes s1). }
    rewrite Ht in Hl.
    assert (Hsplit : Permutation
                       (sent s1 ++ notifications (comms s1) (processes s1))
                       (sent s ++ notifications (comms s) (processes s))).
    { rewrite Hsent, Hcs, Hproc, <- app_assoc.
      apply Permutation_app_head. symmetry. apply notifications_split. }
    destruct (processes s1) as [|kv r] eqn:Ed.
    + inversion Hl; subst. split; [|exact Ed].
      simpl in Hsplit. now rewrite app_nil_r in Hsplit.
    + destruct (IH s1) as [Hperm Hempty]; auto.
      * rewrite Ed, Hproc. now apply still_running_wf.
      * split; [|exact Hempty]. rewrite Hperm. now rewrite Ed.
  - rewrite (tick_poll_raises w re_search a s s1 _ Hp) in Hl. discriminate.
Qed.

End Accounting.

(** X8: without discovery, a run that ends with [sys.exit()] (status 0) has
    notified about every process that startup watched, once to each loaded
    module, and about nothing else: the calls made are, up to their order,
    one per module for each entry of the watch set startup left, and the
    watch set is empty at the end. *)
Theorem every_watched_process_is_notified_once
        (w : world) (re_search : string -> string -> bool)
        (env : environment) (a : arguments) (n : nat) (s1 : state) :
  watch_new a = false ->
  startup w re_search env a initial_state = (Return tt, s1) ->
  fst (run w re_search env a n) = Raise (SystemExit 0) ->
  Permutation (sent (snd (run w re_search env a n)))
              (notifications (comms s1) (processes s1)) /\
  processes (snd (run w re_search env a n)) = [] /\
  List.length (sent (snd (run w re_search env a n)))
  = List.length (processes s1) * List.length (comms s1).
Proof.
  intros Hwn Hs Hr.
  pose proof (startup_nothing_queued w re_search env a initial_state eq_refl)
    as Htd.
  pose proof (startup_on_processes w re_search env wf_dict (watch_pid_wf w)
                                   a initial_state wf_dict_nil) as Hwf.
  pose proof (startup_silent w re_search env a initial_state
                             (conj eq_refl eq_refl)) as Hsil.
  rewrite Hs in Htd, Hwf, Hsil. simpl in Htd, Hwf, Hsil.
  unfold on_processes in Hwf. destruct Hsil as [Hsent _].
  unfold run, main, bind in *. rewrite Hs in *.
  destruct (loop w re_search a n s1) as [r s'] eqn:El. simpl in *. subst r.
  destruct (loop_accounting w re_search a n s1 s' Hwn Hwf Htd El)
    as [Hperm Hempty].
  rewrite Hsent in Hperm. simpl in Hperm.
  split; [exact Hperm|]. split; [exact Hempty|].
  rewrite (Permutation_length Hperm). unfold notifications.
  clear. induction (processes s1) as [|kv r IH]; simpl; [reflexivity|].
  now rewrite length_app, length_map, IH.
Qed.

Lemma every_watched_process_is_notified_once_witness :
  Permutation
    (sent (snd (run short_lived substring_search healthy_env notify_both 1)))
    (notifications
       (comms (snd (startup short_lived substring_search healthy_env
                            notify_both initial_state)))
       (processes (snd (startup short_lived substring_search healthy_env
                                notify_both initial_state)))).
Proof.
  exact (proj1 (every_watched_process_is_notified_once
                  short_lived substring_search healthy_env notify_both 1
                  _ eq_refl eq_refl eq_refl)).
Defined.

(** ** What a pass prints *)

Section PassOutput.

Variable w : world.

(** The body of the scan for an ended process, up to the dispatch. *)
Lemma scan_item_stopped_eq (a : arguments) (kv : Z * ProcessByPID) (s : state) :
  running_in (w (clock s)) (snd kv) = false ->
  exists x,
    scan_item w a kv s = notify (snd kv) x /\
    clock x = S (clock s) /\
    stdout x = stdout s ++ (if arg_quiet a then []
                            else [PrProcessStopped; PrInfo (snd kv)]).
Proof.
  intros H. unfold scan_item, bind, check. rewrite H.
  unfold modify, print, ret. destruct (arg_quiet a); simpl;
    eexists; (split; [reflexivity|]); simpl; split; try reflexivity.
  - now rewrite app_nil_r.
  - now rewrite <- app_assoc.
Qed.

Lemma scan_items_stdout (a : arguments) (d : dict) (s s' : state) :
  for_each d (scan_item w a) s = (Return tt, s') ->
  stdout s' = stdout s ++ (if arg_quiet a then []
                           else stopped_report (stopped w (clock s) d)).
Proof.
  revert s. induction d as [|kv r IH]; intros s H.
  - inversion H; subst. simpl. destruct (arg_quiet a); now rewrite app_nil_r.
  - simpl in H. unfold bind in H. simpl.
    destruct (running_in (w (clock s)) (snd kv)) eqn:Er.
    + rewrite (scan_item_running w a kv s Er) in H.
      apply IH in H. exact H.
    + destruct (scan_item_stopped_eq a kv s Er) as [x [Hx [Hc Ho]]].
      rewrite Hx, notify_eq in H.
      destruct (first_failure (comms x) (snd kv) (clock x)); [discriminate|].
      apply IH in H. simpl in H. rewrite H, Ho, Hc.
      destruct (arg_quiet a); simpl; [now rewrite !app_nil_r|].
      now rewrite <- app_assoc.
Qed.

Lemma removals_prints_nothing (o : list printed) :
  preserves (fun s => stdout s = o) removals.
Proof.
  unfold removals. pres; try (simpl; intros; assumption).
  intros s H. unfold del_process. now destruct (delitem (processes s) x).
Qed.

End PassOutput.

(** X9: what a pass that returns from its scan and removals has put on
    stdout: for each watched process found ended, in the order of the dict,
    the line 'Process stopped:' followed by the info of that process; and
    nothing under -q.  Processes that still run are not mentioned. *)
Theorem pass_report
        (w : world) (a : arguments) (s s' : state) :
  poll w a s = (Return tt, s') ->
  stdout s' = stdout s
              ++ (if arg_quiet a then []
                  else stopped_report (stopped w (S (clock s)) (processes s))).
Proof.
  rewrite poll_eq. unfold bind.
  destruct (scan w a (with_sleeps S (with_clock S s)))
    as [[[]|e] s1] eqn:Es; [|discriminate].
  intros Hr. unfold scan, bind, gets in Es.
  apply scan_items_stdout in Es. simpl in Es.
  pose proof (removals_prints_nothing (stdout s1) s1 eq_refl) as H.
  rewrite Hr in H. simpl in H. now rewrite H.
Qed.

Lemma pass_report_witness :
  let h := mkProcessByPID 100 "sleep 60" "sleep" 5 in
  let s := mkState 1 0 [(100%Z, h)] [] [] [] [] [] in
  let s' := mkState 3 1 [] [] [] [PrProcessStopped; PrInfo h] [] [] in
  poll short_lived watch_100 s = (Return tt, s') /\
  stdout s' = stdout s ++ [PrProcessStopped; PrInfo h].
Proof.
  intros h s s'.
  assert (H : poll short_lived watch_100 s = (Return tt, s'))
    by (vm_compute; reflexivity).
  split; [exact H|].
  exact (pass_report short_lived watch_100 s s' H).
Defined.

(** ** Without discovery nothing is added *)

Section NoAdditions.

Variable w : world.
Variable re_search : string -> string -> bool.

Lemma loop_within (a : arguments) (n : nat) (d0 : dict) :
  watch_new a = false ->
  preserves (on_processes (fun d => incl d d0)) (loop w re_search a n).
Proof.
  intros Hwn. induction n as [|n IH]; simpl; [apply preserves_ret|].
  apply preserves_bind; [|intros _; exact IH].
  unfold tick, poll, scan, scan_item, notify, removals, discover_or_exit.
  rewrite Hwn.
  pres; try (unfold on_processes; simpl; intros; assumption).
  intros s H. unfold del_process, on_processes in *.
  destruct (delitem (processes s) x) as [d|] eqn:E; simpl; [|assumption].
  intros kv Hkv. apply H. now apply (delitem_incl _ _ _ E).
Qed.

End NoAdditions.

(** X10: without discovery the loop never adds to the watch set and never
    replaces an entry: after any number of passes, every entry of the watch
    set, identity and captured metadata, is an entry that startup left
    there. *)
Theorem loop_adds_nothing_without_discovery
        (w : world) (re_search : string -> string -> bool)
        (env : environment) (a : arguments) (n : nat) (s1 : state) :
  watch_new a = false ->
  startup w re_search env a initial_state = (Return tt, s1) ->
  incl (processes (snd (run w re_search env a n))) (processes s1).
Proof.
  intros Hwn Hs. unfold run, main, bind. rewrite Hs.
  apply (loop_within w re_search a n (processes s1) Hwn s1).
  apply incl_refl.
Qed.

Lemma loop_adds_nothing_without_discovery_witness :
  incl (processes (snd (run short_lived substring_search healthy_env
                            watch_100 2)))
       [(100%Z, mkProcessByPID 100 "sleep 60" "sleep" 5)].
Proof.
  exact (loop_adds_nothing_without_discovery
           short_lived substring_search healthy_env watch_100 2 _
           eq_refl eq_refl).
Defined.

(** ** What discovery prints *)

Section DiscoveryOutput.

Variable w : world.
Variable re_search : string -> string -> bool.

(** Lines 136-139 without -q, over identities that all run. *)
Lemma for_each_discover_found (l : list Z) (s : state) :
  (forall q t, In q l -> clock s <= t < clock s + List.length l ->
               lookup_pid q (w t) <> None) ->
  exists s' added,
    for_each l (fun p => h <- watch_pid w p ;;
                         match h with
                         | Some h => print false (PrInfo h)
                         | None => ret tt
                         end) s = (Return tt, s') /\
    processes s' = processes s ++ added /\
    stdout s' = stdout s ++ map (fun kv => PrInfo (snd kv)) added.
Proof.
  revert s. induction l as [|x r IH]; intros s Hrun.
  - exists s, []. simpl. rewrite !app_nil_r. auto.
  - simpl. unfold bind at 1. unfold bind at 1. rewrite watch_pid_eq.
    destruct (contains (processes s) x) eqn:Ec.
    + unfold ret. destruct (IH s) as [s' [added [Hf [Hp Ho]]]].
      { intros q t Hq Ht. apply Hrun; [now right|]. simpl. lia. }
      exists s', added. auto.
    + destruct (lookup_pid x (w (clock s))) as [o|] eqn:El.
      * unfold print, modify.
        set (s1 := with_stdout (fun out => out ++ [PrInfo (capture x o)])
                     (with_processes (fun d => setitem d x (capture x o))
                                     (with_clock S s))).
        destruct (IH s1) as [s' [added [Hf [Hp Ho]]]].
        { intros q t Hq Ht. apply Hrun; [now right|]. simpl in *. lia. }
        exists s', ((x, capture x o) :: added). split; [exact Hf|].
        subst s1. simpl in Hp, Ho. rewrite setitem_fresh in Hp by assumption.
        split.
        -- now rewrite Hp, <- app_assoc.
        -- simpl. now rewrite Ho, <- app_assoc.
      * exfalso. apply (Hrun x (clock s)); [now left|simpl; lia|exact El].
Qed.

End DiscoveryOutput.

(** X11: without -q, a pass with discovery on prints, after what its scan
    printed, the info of each process it starts to watch, in the order they
    are added to the watch set, and nothing for a match that was watched
    already (every matched process taken to keep running while the matches
    are walked through). *)
Theorem discovery_reports_new_processes
        (w : world) (re_search : string -> string -> bool)
        (a : arguments) (s s0 : state) :
  watch_new a = true ->
  arg_quiet a = false ->
  poll w a s = (Return tt, s0) ->
  (forall q t,
      In q (matching re_search (arg_command a) (w (clock s0))) ->
      clock s0 < t <= clock s0
                      + List.length (matching re_search (arg_command a) (w (clock s0))) ->
      lookup_pid q (w t) <> None) ->
  exists added,
    fst (tick w re_search a s) = Return tt /\
    processes (snd (tick w re_search a s)) = processes s0 ++ added /\
    stdout (snd (tick w re_search a s))
    = stdout s0 ++ map (fun kv => PrInfo (snd kv)) added.
Proof.
  intros Hwn Hq Hp Hrun.
  destruct (for_each_discover_found
              w (matching re_search (arg_command a) (w (clock s0)))
              (with_clock S s0))
    as [s' [added [Hf [Hproc Ho]]]].
  { simpl. intros q t Hin Ht. apply Hrun; [exact Hin|lia]. }
  assert (Ht : tick w re_search a s = (Return tt, s')).
  { unfold tick, bind. rewrite Hp. unfold discover_or_exit. rewrite Hwn.
    unfold discover. unfold bind at 1. unfold pids_with_command_name.
    rewrite Hq. exact Hf. }
  exists added. rewrite Ht. simpl. auto.
Qed.

Lemma discovery_reports_new_processes_witness :
  let s := mkState 5 1 [] [] [] [] [] [] in
  exists added,
    processes (snd (tick recycled substring_search discover_workers s))
    = added /\
    stdout (snd (tick recycled substring_search discover_workers s))
    = map (fun kv => PrInfo (snd kv)) added.
Proof.
  intros s.
  assert (Hp : poll recycled discover_workers s
               = (Return tt, mkState 6 2 [] [] [] [] [] []))
    by (vm_compute; reflexivity).
  destruct (discovery_reports_new_processes
              recycled substring_search discover_workers s _
              eq_refl eq_refl Hp)
    as [added [_ [Hproc Ho]]].
  - simpl. intros q t [<-|[]] Ht. assert (t = 7) by lia. subst t. discriminate.
  - exists added. split; [exact Hproc|exact Ho].
Defined.

(** ** Runs that never show a traceback *)

Section CleanEndings.

Variable w : world.
Variable re_search : string -> string -> bool.


End CleanEndings.


